(** * SubsPlease anime-torrent provider: a shallow embedding of
    [src/SubsPlease.ts] and the properties of its normalisation and
    smart-search filtering.

    Conventions of the embedding.
    - A JavaScript string is a Rocq [string] read as the UTF-8 bytes of the
      text.  Every character the provider inspects ([p], [-], [+], digits,
      the letters of [btih:] and [xl=]) is ASCII, and an ASCII byte never
      occurs inside a multi-byte UTF-8 sequence, so searching, replacing and
      slicing agree with the UTF-16 view of the engine.
    - A JavaScript Number is a [number]: the integer-valued doubles, [NaN]
      and the two infinities.  These are the only Numbers the provider
      computes ([parseInt] results, [-1], [0]) or receives (episode counts
      and offsets).  Negative zero is identified with zero: [===], [>],
      [isNaN] and [String] do not distinguish them.
    - Exceptions are the [Throw] case of [result]; the asynchronous pipeline
      is sequential, so [await] is monadic bind. *)

From Stdlib Require Import ZArith List String Ascii Bool Lia DecimalString.
Import ListNotations.

#[local] Open Scope string_scope.
#[local] Open Scope Z_scope.

(* ===================================================================== *)
(** * The JavaScript built-ins the provider calls *)
(* ===================================================================== *)

Module JS.

(** ** Numbers *)

Inductive number : Type :=
| NaN
| Fin (z : Z)
| Inf (negative : bool).

(** [toDouble z] is the Number value for the mathematical integer [z]:
    round to nearest with 53 significant bits, ties to even, overflowing
    to an infinity. *)
Definition toDouble (z : Z) : number :=
  let a := Z.abs z in
  if a <? 2 ^ 53 then Fin z
  else
    let e := Z.log2 a - 52 in
    let q := a / 2 ^ e in
    let r := a mod 2 ^ e in
    let half := 2 ^ (e - 1) in
    let q' := if (half <? r) || ((r =? half) && Z.odd q) then q + 1 else q in
    let m := q' * 2 ^ e in
    if 2 ^ 1024 <=? m then Inf (z <? 0) else Fin (Z.sgn z * m).

Definition isNaN (x : number) : bool :=
  match x with NaN => true | _ => false end.

(** [x === y] on Numbers. *)
Definition strict_eq (x y : number) : bool :=
  match x, y with
  | Fin a, Fin b => a =? b
  | Inf s, Inf s' => Bool.eqb s s'
  | _, _ => false
  end.

(** [x > y] on Numbers. *)
Definition gt (x y : number) : bool :=
  match x, y with
  | NaN, _ | _, NaN => false
  | Fin a, Fin b => b <? a
  | Fin _, Inf s => s
  | Inf s, Fin _ => negb s
  | Inf s, Inf s' => negb s && s'
  end.

(** [x + y] on Numbers: the exact sum, rounded. *)
Definition add (x y : number) : number :=
  match x, y with
  | NaN, _ | _, NaN => NaN
  | Fin a, Fin b => toDouble (a + b)
  | Fin _, Inf s | Inf s, Fin _ => Inf s
  | Inf s, Inf s' => if Bool.eqb s s' then Inf s else NaN
  end.


(** ** Characters and strings *)

Definition byte (c : ascii) : Z := Z.of_nat (nat_of_ascii c).

Definition in_range (lo hi c : ascii) : bool :=
  (byte lo <=? byte c) && (byte c <=? byte hi).

(** The class [\d]. *)
Definition isDigit (c : ascii) : bool := in_range "0" "9" c.

(** The class [[a-zA-Z0-9]]. *)
Definition isAlnum (c : ascii) : bool :=
  in_range "a" "z" c || in_range "A" "Z" c || in_range "0" "9" c.

Fixpoint takeWhile (p : ascii -> bool) (s : string) : string :=
  match s with
  | String c s' => if p c then String c (takeWhile p s') else ""
  | "" => ""
  end.

Fixpoint allOf (p : ascii -> bool) (s : string) : bool :=
  match s with
  | String c s' => p c && allOf p s'
  | "" => true
  end.

Fixpoint drop (n : nat) (s : string) : string :=
  match n, s with
  | S n', String _ s' => drop n' s'
  | _, _ => s
  end.

(** [TrimString(s, start)]: leading WhiteSpace and LineTerminator code
    points are removed.  Beyond TAB, LF, VT, FF, CR and SPACE these are
    U+00A0, U+1680, U+2000..U+200A, U+2028, U+2029, U+202F, U+205F, U+3000
    and U+FEFF, matched here by their UTF-8 encodings. *)
Definition wsLength (s : string) : nat :=
  match s with
  | String c s1 =>
      let b := byte c in
      if ((9 <=? b) && (b <=? 13)) || (b =? 32) then 1%nat
      else
        match s1 with
        | String c1 s2 =>
            let b1 := byte c1 in
            if (b =? 194) && (b1 =? 160) then 2%nat
            else
              match s2 with
              | String c2 _ =>
                  let b2 := byte c2 in
                  if (b =? 225) && (b1 =? 154) && (b2 =? 128) then 3%nat
                  else if (b =? 226) && (b1 =? 128)
                          && (((128 <=? b2) && (b2 <=? 138))
                              || (b2 =? 168) || (b2 =? 169) || (b2 =? 175))
                       then 3%nat
                  else if (b =? 226) && (b1 =? 129) && (b2 =? 159) then 3%nat
                  else if (b =? 227) && (b1 =? 128) && (b2 =? 128) then 3%nat
                  else if (b =? 239) && (b1 =? 187) && (b2 =? 191) then 3%nat
                  else 0%nat
              | "" => 0%nat
              end
        | "" => 0%nat
        end
  | "" => 0%nat
  end.

Fixpoint trimStartFuel (fuel : nat) (s : string) : string :=
  match fuel with
  | O => s
  | S fuel' =>
      match wsLength s with
      | O => s
      | n => trimStartFuel fuel' (drop n s)
      end
  end.

Definition trimStart (s : string) : string :=
  trimStartFuel (String.length s) s.

Definition digitValue (c : ascii) : Z := byte c - 48.

(** The integer written by a string of decimal digits, continuing from the
    value [acc] of the digits already read. *)
Fixpoint decimalValueFrom (acc : Z) (digits : string) : Z :=
  match digits with
  | String c digits' => decimalValueFrom (10 * acc + digitValue c) digits'
  | "" => acc
  end.

Definition decimalValue (digits : string) : Z := decimalValueFrom 0 digits.

(** [parseInt(s, 10)]: every call of the provider passes radix 10, for
    which no [0x] prefix is recognised.  Of the two readings the standard
    allows beyond twenty significant digits, the exact one is taken. *)
Definition parseInt (s : string) : number :=
  let S := trimStart s in
  let sign := if String.prefix "-" S then -1 else 1 in
  let S := if String.prefix "-" S || String.prefix "+" S then drop 1 S else S in
  let Z := takeWhile isDigit S in
  if (Z =? "")%string then NaN else toDouble (sign * decimalValue Z).

(** [s.replace(pattern, replacement)] for a string pattern: only the first
    occurrence is replaced.  (The replacement strings of the provider hold
    no [$].) *)
Fixpoint replace (pattern replacement s : string) : string :=
  if String.prefix pattern s
  then replacement ++ drop (String.length pattern) s
  else
    match s with
    | String c s' => String c (replace pattern replacement s')
    | "" => ""
    end.

(** [s.match(/marker(cls+)/)], giving the capture group of the leftmost
    match: the first place where [marker] is followed by at least one
    character of the class, and there the longest run of the class. *)
Definition matchHere (marker : string) (cls : ascii -> bool) (s : string)
  : option string :=
  if String.prefix marker s
  then
    match takeWhile cls (drop (String.length marker) s) with
    | "" => None
    | group => Some group
    end
  else None.

Fixpoint matchGroup (marker : string) (cls : ascii -> bool) (s : string)
  : option string :=
  match matchHere marker cls s with
  | Some group => Some group
  | None =>
      match s with
      | String _ s' => matchGroup marker cls s'
      | "" => None
      end
  end.

Definition upperChar (c : ascii) : ascii :=
  if in_range "a" "z" c then ascii_of_nat (nat_of_ascii c - 32) else c.

(** [s.toUpperCase()], on the ASCII letters (the provider applies it to a
    run of [[a-zA-Z0-9]] only). *)
Fixpoint toUpperCase (s : string) : string :=
  match s with
  | String c s' => String (upperChar c) (toUpperCase s')
  | "" => ""
  end.

Fixpoint repeatChar (c : ascii) (n : nat) : string :=
  match n with
  | O => ""
  | S n' => String c (repeatChar c n')
  end.

(** [s.padStart(targetLength, c)] for a one-character filler. *)
Definition padStart (s : string) (targetLength : nat) (c : ascii) : string :=
  repeatChar c (targetLength - String.length s) ++ s.

(** The decimal digits of a non-negative integer. *)
Definition decimalDigits (n : Z) : string :=
  NilZero.string_of_uint (N.to_uint (Z.to_N n)).

Definition numDigits (n : Z) : Z :=
  Z.of_nat (String.length (decimalDigits n)).

(** The [k]-digit significand [s] for which [s * 10^(n-k)] is the Number
    [m], if there is one; of two, the one nearer to [m]. *)
Definition significand (m k n : Z) : option Z :=
  let p := 10 ^ (n - k) in
  let s0 := m / p in
  let fits s :=
    (10 ^ (k - 1) <=? s) && (s <? 10 ^ k)
    && match toDouble (s * p) with Fin m' => m' =? m | _ => false end in
  match fits s0, fits (s0 + 1) with
  | true, true =>
      let below := m - s0 * p in
      let above := (s0 + 1) * p - m in
      Some (if (below <? above) || ((below =? above) && Z.even s0)
            then s0 else s0 + 1)
  | true, false => Some s0
  | false, true => Some (s0 + 1)
  | false, false => None
  end.

Fixpoint shortestFrom (fuel : nat) (m k n : Z) : Z * Z :=
  match fuel with
  | O => (m, n)
  | S fuel' =>
      match significand m k n with
      | Some s => (s, k)
      | None => shortestFrom fuel' m (k + 1) n
      end
  end.

(** [Number::toString] of a positive integer-valued Number: the fewest
    significant digits that still denote the Number, in positional
    notation below [10^21] and in exponent notation from there on. *)
Definition positiveToString (m : Z) : string :=
  let d := numDigits m in
  let '(s, k, n) :=
    match significand m 1 (d + 1) with
    | Some s => (s, 1, d + 1)
    | None => let '(s, k) := shortestFrom 17 m 1 d in (s, k, d)
    end in
  let digits := decimalDigits s in
  if n <=? 21 then digits ++ repeatChar "0" (Z.to_nat (n - k))
  else
    match digits with
    | String c "" => String c ("e+" ++ decimalDigits (n - 1))
    | String c rest => String c ("." ++ rest ++ "e+" ++ decimalDigits (n - 1))
    | "" => ""
    end.

(** [String(x)]. *)
Definition toString (x : number) : string :=
  match x with
  | NaN => "NaN"
  | Inf false => "Infinity"
  | Inf true => "-Infinity"
  | Fin z =>
      if z =? 0 then "0"
      else if z <? 0 then "-" ++ positiveToString (- z)
      else positiveToString z
  end.

(** [(size / (1024 * 1024)).toFixed(2)] for [size > 0].  Dividing a double
    by a power of two is exact, so the quotient is the rational
    [size / 2^20]; [toFixed] takes the nearest multiple of [1/100], the
    larger of two, and falls back to [String] from [10^21] on, where the
    quotient is an integer. *)
Definition megabytesToFixed2 (size : number) : string :=
  match size with
  | Fin m =>
      if 10 ^ 21 * 2 ^ 20 <=? m then toString (Fin (m / 2 ^ 20))
      else
        let n := (200 * m + 2 ^ 20) / 2 ^ 21 in
        let digits := decimalDigits n in
        let digits := padStart digits 3 "0" in
        let whole := (String.length digits - 2)%nat in
        substring 0 whole digits ++ "." ++ substring whole 2 digits
  | other => toString other
  end.

Definition hexDigit (n : Z) : ascii :=
  ascii_of_nat (Z.to_nat (if n <? 10 then 48 + n else 55 + n)).

Definition isUnreserved (c : ascii) : bool :=
  isAlnum c
  || existsb (Ascii.eqb c)
       ["-"; "_"; "."; "!"; "~"; "*"; "'"; "("; ")"]%char.

(** [encodeURIComponent(s)]: every byte of the UTF-8 text outside the
    unreserved set becomes [%XX].  (It throws on a lone surrogate only,
    which no UTF-8 text holds.) *)
Fixpoint encodeURIComponent (s : string) : string :=
  match s with
  | String c s' =>
      (if isUnreserved c then String c ""
       else String "%" (String (hexDigit (byte c / 16))
                          (String (hexDigit (byte c mod 16)) "")))
      ++ encodeURIComponent s'
  | "" => ""
  end.

(** ** Dates

    A Date object is its time value: milliseconds since the epoch, or
    [None] for the NaN of an invalid date. *)

Definition msPerDay : Z := 86400000.

Definition Day (t : Z) : Z := t / msPerDay.

Definition DaysInYear (y : Z) : Z :=
  if negb (y mod 4 =? 0) then 365
  else if negb (y mod 100 =? 0) then 366
  else if negb (y mod 400 =? 0) then 365
  else 366.

Definition DayFromYear (y : Z) : Z :=
  365 * (y - 1970) + (y - 1969) / 4 - (y - 1901) / 100 + (y - 1601) / 400.

(** The largest year that starts on or before the day of [t]: an estimate
    from the mean length of a year, moved by at most one. *)
Definition YearFromTime (t : Z) : Z :=
  let d := Day t in
  let y := 1970 + 400 * d / 146097 in
  if d <? DayFromYear y then y - 1
  else if DayFromYear (y + 1) <=? d then y + 1
  else y.

Definition DayWithinYear (t : Z) : Z := Day t - DayFromYear (YearFromTime t).

Definition InLeapYear (t : Z) : Z :=
  if DaysInYear (YearFromTime t) =? 366 then 1 else 0.

(** Months count from 0, as [MonthFromTime] does. *)
Definition MonthFromTime (t : Z) : Z :=
  let d := DayWithinYear t in
  let l := InLeapYear t in
  if d <? 31 then 0
  else if d <? 59 + l then 1
  else if d <? 90 + l then 2
  else if d <? 120 + l then 3
  else if d <? 151 + l then 4
  else if d <? 181 + l then 5
  else if d <? 212 + l then 6
  else if d <? 243 + l then 7
  else if d <? 273 + l then 8
  else if d <? 304 + l then 9
  else if d <? 334 + l then 10
  else 11.

Definition DateFromTime (t : Z) : Z :=
  let d := DayWithinYear t in
  let l := InLeapYear t in
  match MonthFromTime t with
  | 0 => d + 1
  | 1 => d - 30
  | 2 => d - 58 - l
  | 3 => d - 89 - l
  | 4 => d - 119 - l
  | 5 => d - 150 - l
  | 6 => d - 180 - l
  | 7 => d - 211 - l
  | 8 => d - 242 - l
  | 9 => d - 272 - l
  | 10 => d - 303 - l
  | _ => d - 333 - l
  end.

Definition HourFromTime (t : Z) : Z := (t / 3600000) mod 24.
Definition MinFromTime (t : Z) : Z := (t / 60000) mod 60.
Definition SecFromTime (t : Z) : Z := (t / 1000) mod 60.
Definition msFromTime (t : Z) : Z := t mod 1000.

Definition digitChar (d : Z) : ascii := ascii_of_nat (Z.to_nat (48 + d)).

(** [n] written with exactly [width] decimal digits (its low ones). *)
Fixpoint fixedDigits (width : nat) (n : Z) : string :=
  match width with
  | O => ""
  | S w => fixedDigits w (n / 10) ++ String (digitChar (n mod 10)) ""
  end.

(** [d.toISOString()] for a valid date: [YYYY-MM-DDTHH:mm:ss.sssZ], with
    the signed six-digit year outside 0..9999. *)
Definition toISOString (t : Z) : string :=
  let y := YearFromTime t in
  (if (0 <=? y) && (y <=? 9999) then fixedDigits 4 y
   else (if y <? 0 then "-" else "+") ++ fixedDigits 6 (Z.abs y))
  ++ "-" ++ fixedDigits 2 (MonthFromTime t + 1)
  ++ "-" ++ fixedDigits 2 (DateFromTime t)
  ++ "T" ++ fixedDigits 2 (HourFromTime t)
  ++ ":" ++ fixedDigits 2 (MinFromTime t)
  ++ ":" ++ fixedDigits 2 (SecFromTime t)
  ++ "." ++ fixedDigits 3 (msFromTime t)
  ++ "Z".

(** The time values: [TimeClip] maps every other Number to NaN. *)
Definition isTimeValue (t : Z) : bool := Z.abs t <=? 8640000000000000.

Definition TimeClip (time : option Z) : option Z :=
  match time with
  | Some t => if isTimeValue t then Some t else None
  | None => None
  end.

(** *** Recognising the date-time format

    [isISODateTime s] reads [s] back as a calendar date and a time of day
    in the ISO-8601 format above and checks every field's range. *)

Definition readDigit (s : string) : option (Z * string) :=
  match s with
  | String c s' => if isDigit c then Some (digitValue c, s') else None
  | "" => None
  end.

Fixpoint readDigits (width : nat) (acc : Z) (s : string) : option (Z * string) :=
  match width with
  | O => Some (acc, s)
  | S w =>
      match readDigit s with
      | Some (d, s') => readDigits w (10 * acc + d) s'
      | None => None
      end
  end.

Definition readChar (c : ascii) (s : string) : option string :=
  match s with
  | String c' s' => if Ascii.eqb c c' then Some s' else None
  | "" => None
  end.

Definition readYear (s : string) : option (Z * string) :=
  match readChar "+" s with
  | Some s' => readDigits 6 0 s'
  | None =>
      match readChar "-" s with
      | Some s' =>
          match readDigits 6 0 s' with
          | Some (y, rest) => if y =? 0 then None else Some (- y, rest)
          | None => None
          end
      | None => readDigits 4 0 s
      end
  end.

Definition daysInMonth (y month : Z) : Z :=
  match month with
  | 2 => if DaysInYear y =? 366 then 29 else 28
  | 4 | 6 | 9 | 11 => 30
  | _ => 31
  end.

Definition between (lo x hi : Z) : bool := (lo <=? x) && (x <=? hi).

Definition isISODateTime (s : string) : bool :=
  match readYear s with
  | Some (y, s) =>
  match readChar "-" s with
  | Some s =>
  match readDigits 2 0 s with
  | Some (month, s) =>
  match readChar "-" s with
  | Some s =>
  match readDigits 2 0 s with
  | Some (day, s) =>
  match readChar "T" s with
  | Some s =>
  match readDigits 2 0 s with
  | Some (hour, s) =>
  match readChar ":" s with
  | Some s =>
  match readDigits 2 0 s with
  | Some (minute, s) =>
  match readChar ":" s with
  | Some s =>
  match readDigits 2 0 s with
  | Some (second, s) =>
  match readChar "." s with
  | Some s =>
  match readDigits 3 0 s with
  | Some (_, s) =>
      (s =? "Z")%string
      && between 1 month 12 && between 1 day (daysInMonth y month)
      && between 0 hour 23 && between 0 minute 59 && between 0 second 59
  | None => false end
  | None => false end
  | None => false end
  | None => false end
  | None => false end
  | None => false end
  | None => false end
  | None => false end
  | None => false end
  | None => false end
  | None => false end
  | None => false end
  | None => false end.

(** *** Reading a date-time back

    [Date.parse] on a string in the format above: the calendar fields are
    put together again by [MakeDay], [MakeTime] and [MakeDate], and the
    result is clipped.  (Months count from 1 here, as they are written.) *)

Definition daysBeforeMonth (y month : Z) : Z :=
  let l := if DaysInYear y =? 366 then 1 else 0 in
  match month with
  | 1 => 0
  | 2 => 31
  | 3 => 59 + l
  | 4 => 90 + l
  | 5 => 120 + l
  | 6 => 151 + l
  | 7 => 181 + l
  | 8 => 212 + l
  | 9 => 243 + l
  | 10 => 273 + l
  | 11 => 304 + l
  | _ => 334 + l
  end.

Definition MakeDay (year month day : Z) : Z :=
  DayFromYear year + daysBeforeMonth year month + day - 1.

Definition MakeTime (hour minute second ms : Z) : Z :=
  hour * 3600000 + minute * 60000 + second * 1000 + ms.

Definition MakeDate (day time : Z) : Z := day * msPerDay + time.

Definition andThen {A B : Type} (o : option A) (k : A -> option B) : option B :=
  match o with
  | Some a => k a
  | None => None
  end.

(** Year, month, day, hour, minute, second and millisecond as written. *)
Definition readISOFields (s : string) : option (Z * Z * Z * Z * Z * Z * Z) :=
  andThen (readYear s) (fun '(y, s) =>
  andThen (readChar "-" s) (fun s =>
  andThen (readDigits 2 0 s) (fun '(month, s) =>
  andThen (readChar "-" s) (fun s =>
  andThen (readDigits 2 0 s) (fun '(day, s) =>
  andThen (readChar "T" s) (fun s =>
  andThen (readDigits 2 0 s) (fun '(hour, s) =>
  andThen (readChar ":" s) (fun s =>
  andThen (readDigits 2 0 s) (fun '(minute, s) =>
  andThen (readChar ":" s) (fun s =>
  andThen (readDigits 2 0 s) (fun '(second, s) =>
  andThen (readChar "." s) (fun s =>
  andThen (readDigits 3 0 s) (fun '(ms, s) =>
  if (s =? "Z")%string
  then Some (y, month, day, hour, minute, second, ms)
  else None))))))))))))).

Definition parseISODateTime (s : string) : option Z :=
  match readISOFields s with
  | Some (y, month, day, hour, minute, second, ms) =>
      if between 1 month 12 && between 1 day (daysInMonth y month)
         && between 0 hour 23 && between 0 minute 59 && between 0 second 59
      then TimeClip (Some (MakeDate (MakeDay y month day)
                             (MakeTime hour minute second ms)))
      else None
  | None => None
  end.

End JS.

(* ===================================================================== *)
(** * Exceptions, the runtime and the effects of a call *)
(* ===================================================================== *)

(** What a call can throw: the provider's own [new Error(message)], or
    whatever the transport rejects with (a network failure, a body that is
    not JSON). *)
Inductive exn : Type :=
| Error (message : string)
| Rejection (reason : string).

Inductive result (A : Type) : Type :=
| Ok (a : A)
| Throw (e : exn).

Arguments Ok {A} a.
Arguments Throw {A} e.

(** The two record types of the feed, as [SubsPlease.ts] declares them. *)
Record SubsPleaseDownload : Type := {
  res : string;
  magnet : string
}.

Record SubsPleaseRelease : Type := {
  show : string;
  episode : string;
  downloads : list SubsPleaseDownload;
  release_date : string;
  page : string
}.

(** The decoded body of a response: an object (an array is one, keyed by
    its indices), whose entries are listed in the order [for ... in] visits
    its keys, or any other JSON value ([null], a number, a string, a
    boolean).  The entries of [JsonObject] are releases of the shape
    [SubsPlease.ts] declares, which is what the source takes the body to be
    (it casts without a check): a body with an entry of another shape (a
    [null] entry, a release without [downloads], a download without
    [magnet]) is not a [payload], and what the loop does with it, a
    [TypeError] at the first such entry, is outside this embedding. *)
Inductive payload : Type :=
| JsonObject (entries : list (string * SubsPleaseRelease))
| JsonOther.

Record Response : Type := {
  ok : bool;
  status : JS.number;
  json : result payload
}.

(** What surrounds one call: the transport, the engine's date parser
    ([Date.parse], whose result is a Number or NaN) and the clock, given as
    its successive readings. *)
Record Runtime : Type := {
  fetch : string -> result Response;
  Date_parse : string -> option Z;
  Date_now : nat -> Z
}.

(** A computation returns or throws, and counts the clock readings taken
    so far. *)
Definition Eff (A : Type) : Type := nat -> result A * nat.

Definition ret {A : Type} (a : A) : Eff A := fun reads => (Ok a, reads).

Definition throw {A : Type} (e : exn) : Eff A := fun reads => (Throw e, reads).

Definition bind {A B : Type} (m : Eff A) (k : A -> Eff B) : Eff B :=
  fun reads =>
    match m reads with
    | (Ok a, reads') => k a reads'
    | (Throw e, reads') => (Throw e, reads')
    end.

(** [await p] for a promise the runtime has settled. *)
Definition await {A : Type} (p : result A) : Eff A := fun reads => (p, reads).

Declare Scope eff_scope.
Delimit Scope eff_scope with eff.
Notation "x <- m ;; k" := (bind m (fun x => k))
  (at level 61, m at next level, right associativity) : eff_scope.

(* ===================================================================== *)
(** * The host's types *)
(* ===================================================================== *)

(** Modelled from the spec: [anime-torrent-provider.d.ts] is not among the
    sources; the fields of [AnimeTorrent] are those of the object literal
    [apiReleaseToAnimeTorrents] builds, typed as the spec's data model
    describes them. *)
Record AnimeTorrent : Type := {
  name : string;
  date : string;
  size : JS.number;
  formattedSize : string;
  seeders : JS.number;
  leechers : JS.number;
  downloadCount : JS.number;
  link : string;
  downloadUrl : string;
  magnetLink : string;
  infoHash : string;
  resolution : string;
  isBatch : bool;
  episodeNumber : JS.number;
  releaseGroup : string;
  isBestRelease : bool;
  confirmed : bool
}.

(** Modelled from the spec: the media descriptor of
    [anime-torrent-provider.d.ts], with the three fields [smartSearch]
    reads.  An absent title is the empty string (both are falsy) and an
    absent offset is [NaN] (what [undefined + n] is). *)
Record Media : Type := {
  romajiTitle : string;
  englishTitle : string;
  absoluteSeasonOffset : JS.number
}.

(** Modelled from the spec: the options of [search]. *)
Module Search.
Record AnimeSearchOptions : Type := {
  query : string
}.
End Search.

(** Modelled from the spec: the search intent of [smartSearch]. *)
Module Smart.
Record AnimeSmartSearchOptions : Type := {
  media : Media;
  query : string;
  batch : bool;
  episodeNumber : JS.number;
  resolution : string
}.
End Smart.

(** Modelled from the spec: the capability descriptor of [getSettings]. *)
Record AnimeProviderSettings : Type := {
  canSmartSearch : bool;
  smartSearchFilters : list string;
  supportsAdult : bool;
  type : string
}.

(* ===================================================================== *)
(** * The provider *)
(* ===================================================================== *)

Module Provider.

Import JS.
#[local] Open Scope eff_scope.

Definition api : string := "https://subsplease.org/api/".

(** [a || b] on strings: the empty string is the falsy one. *)
Definition orElse (a b : string) : string :=
  if (a =? "")%string then b else a.

Definition getSettings : AnimeProviderSettings :=
  {| canSmartSearch := true;
     smartSearchFilters := ["episodeNumber"; "resolution"];
     supportsAdult := false;
     type := "main" |}.

Definition getHashFromMagnet (magnet : string) : string :=
  match matchGroup "btih:" isAlnum magnet with
  | Some group => toUpperCase group
  | None => ""
  end.

Definition getSizeFromMagnet (magnet : string) : number :=
  match matchGroup "xl=" isDigit magnet with
  | Some group => parseInt group
  | None => Fin 0
  end.

Definition searchUrl (query : string) : string :=
  api ++ "?f=search&tz=UTC&s=" ++ encodeURIComponent query.

Section WithRuntime.

Context (rt : Runtime).

(** [new Date(s)]: the parsed time, clipped. *)
Definition newDate (s : string) : option Z := TimeClip (Date_parse rt s).

(** [new Date()]: the next reading of the clock. *)
Definition newDateNow : Eff Z := fun reads => (Ok (Date_now rt reads), S reads).

Definition apiReleaseToAnimeTorrents (release : SubsPleaseRelease)
  : Eff (list AnimeTorrent) :=
  let episodeNumber := parseInt (episode release) in
  let parsedDate := newDate (release_date release) in
  date <- match parsedDate with
          | Some t => ret (toISOString t)
          | None => now <- newDateNow ;; ret (toISOString now)
          end ;;
  ret (fold_left
         (fun torrents download =>
            let resolution := res download ++ "p" in
            let sizeInBytes := getSizeFromMagnet (magnet download) in
            let name :=
              "[SubsPlease] " ++ show release ++ " - "
              ++ padStart (toString episodeNumber) 2 "0"
              ++ " (" ++ resolution ++ ") ["
              ++ getHashFromMagnet (magnet download) ++ "].mkv" in
            (torrents ++
            [ {| name := name;
                 date := date;
                 size := sizeInBytes;
                 formattedSize :=
                   if gt sizeInBytes (Fin 0)
                   then megabytesToFixed2 sizeInBytes ++ " MB"
                   else "N/A";
                 seeders := Fin (-1);
                 leechers := Fin (-1);
                 downloadCount := Fin 0;
                 link := "https://subsplease.org/shows/" ++ page release ++ "/";
                 downloadUrl := "";
                 magnetLink := magnet download;
                 infoHash := getHashFromMagnet (magnet download);
                 resolution := resolution;
                 isBatch := false;
                 episodeNumber :=
                   if isNaN episodeNumber then Fin (-1) else episodeNumber;
                 releaseGroup := "SubsPlease";
                 isBestRelease := false;
                 confirmed := true |} ])%list)
         (downloads release) []).

(** The [for (const key in data)] loop of [fetchAndParseSearchResults],
    with the list it pushes onto. *)
Fixpoint collectReleases (entries : list (string * SubsPleaseRelease))
  (torrents : list AnimeTorrent) : Eff (list AnimeTorrent) :=
  match entries with
  | [] => ret torrents
  | (_, release) :: rest =>
      if negb (episode release =? "Batch")%string
      then
        pushed <- apiReleaseToAnimeTorrents release ;;
        collectReleases rest (torrents ++ pushed)%list
      else collectReleases rest torrents
  end.

Definition fetchAndParseSearchResults (query : string)
  : Eff (list AnimeTorrent) :=
  response <- await (fetch rt (searchUrl query)) ;;
  if negb (ok response)
  then throw (Error ("Failed to fetch from SubsPlease API, status: "
                     ++ toString (status response)))
  else
    data <- await (json response) ;;
    match data with
    | JsonObject entries => collectReleases entries []
    | JsonOther => ret []
    end.

Definition getLatest : Eff (list AnimeTorrent) :=
  fetchAndParseSearchResults "".

Definition search (opts : Search.AnimeSearchOptions) : Eff (list AnimeTorrent) :=
  fetchAndParseSearchResults (Search.query opts).

End WithRuntime.

(** The episode step of [smartSearch] (the [if (opts.episodeNumber > 0)]
    block). *)
Definition episodeStep (opts : Smart.AnimeSmartSearchOptions)
  (filtered : list AnimeTorrent) : list AnimeTorrent :=
  if gt (Smart.episodeNumber opts) (Fin 0)
  then
    let absoluteEpisode :=
      add (absoluteSeasonOffset (Smart.media opts)) (Smart.episodeNumber opts) in
    filter (fun t =>
              negb (isBatch t)
              && (strict_eq (episodeNumber t) (Smart.episodeNumber opts)
                  || strict_eq (episodeNumber t) absoluteEpisode))
           filtered
  else filtered.

(** The resolution step of [smartSearch] (the [if (opts.resolution)]
    block). *)
Definition resolutionStep (opts : Smart.AnimeSmartSearchOptions)
  (filtered : list AnimeTorrent) : list AnimeTorrent :=
  if negb (Smart.resolution opts =? "")%string
  then
    let targetRes := parseInt (replace "p" "" (Smart.resolution opts)) in
    if negb (isNaN targetRes)
    then
      filter (fun t =>
                let torrentRes := parseInt (replace "p" "" (resolution t)) in
                strict_eq torrentRes targetRes)
             filtered
    else filtered
  else filtered.

(** The [query] constant of [smartSearch]:
    [opts.query || opts.media.romajiTitle || opts.media.englishTitle || ""]. *)
Definition effectiveQuery (opts : Smart.AnimeSmartSearchOptions) : string :=
  orElse (Smart.query opts)
    (orElse (romajiTitle (Smart.media opts))
       (orElse (englishTitle (Smart.media opts)) "")).

Definition smartSearch (rt : Runtime) (opts : Smart.AnimeSmartSearchOptions)
  : Eff (list AnimeTorrent) :=
  if Smart.batch opts then ret []
  else
    let query := effectiveQuery opts in
    allTorrents <- fetchAndParseSearchResults rt query ;;
    let filtered := allTorrents in
    let filtered := episodeStep opts filtered in
    let filtered := resolutionStep opts filtered in
    ret filtered.

Definition getTorrentMagnetLink (torrent : AnimeTorrent) : string :=
  orElse (magnetLink torrent) "".

End Provider.

(* ===================================================================== *)
(** * The specification's vocabulary *)
(* ===================================================================== *)

(** Definitions that follow the wording of the specification rather than
    the code, for the properties to compare the code with. *)
Module Spec.

(** "Stripping the trailing unit character": a label that ends in [p]
    loses that last character; any other label is left as it is. *)
Fixpoint stripTrailingUnit (label : string) : string :=
  match label with
  | String c rest =>
      match rest with
      | "" => if Ascii.eqb c "p" then "" else label
      | _ => String c (stripTrailingUnit rest)
      end
  | "" => ""
  end.

Fixpoint occurs (c : ascii) (s : string) : bool :=
  match s with
  | String c' s' => Ascii.eqb c c' || occurs c s'
  | "" => false
  end.

(** A string that does not start with a character of the class. *)
Definition stops (cls : ascii -> bool) (after : string) : Prop :=
  forall c rest, after = String c rest -> cls c = false.

(** An uppercase letter or a digit. *)
Definition isUpperAlnum (c : ascii) : bool :=
  JS.in_range "A" "Z" c || JS.isDigit c.

(** The marker, followed by a character of the class, occurs in [s] right
    after [before]. *)
Definition occursAfter (marker : string) (cls : ascii -> bool)
  (s before : string) : Prop :=
  exists c after, s = before ++ marker ++ String c after /\ cls c = true.

(** "The token following the marker, if present": at the first occurrence
    of the marker that a character of the class follows, the whole run of
    such characters; nothing when there is no such occurrence. *)
Inductive TokenAfter (marker : string) (cls : ascii -> bool) (s : string)
  : option string -> Prop :=
| TokenFound (before token after : string) :
    s = before ++ marker ++ token ++ after ->
    token <> "" ->
    JS.allOf cls token = true ->
    stops cls after ->
    (forall before', occursAfter marker cls s before' ->
                     (String.length before <= String.length before')%nat) ->
    TokenAfter marker cls s (Some token)
| TokenAbsent :
    (forall before', ~ occursAfter marker cls s before') ->
    TokenAfter marker cls s None.

(** The timestamp a release gets, and the clock readings after it. *)
Definition stampOf (rt : Runtime) (release : SubsPleaseRelease) (reads : nat)
  : string * nat :=
  match Provider.newDate rt (release_date release) with
  | Some t => (JS.toISOString t, reads)
  | None => (JS.toISOString (Date_now rt reads), S reads)
  end.

End Spec.

(* ===================================================================== *)
(** * Sample data *)
(* ===================================================================== *)

Module Samples.

Import JS.

Definition torrentWith (label : string) (ep : number) : AnimeTorrent :=
  {| name := ""; date := "1970-01-01T00:00:00.000Z"; size := Fin 0;
     formattedSize := "N/A"; seeders := Fin (-1); leechers := Fin (-1);
     downloadCount := Fin 0; link := ""; downloadUrl := ""; magnetLink := "";
     infoHash := ""; resolution := label; isBatch := false;
     episodeNumber := ep; releaseGroup := "SubsPlease";
     isBestRelease := false; confirmed := true |}.

Definition intent (ep offset : number) (label : string)
  : Smart.AnimeSmartSearchOptions :=
  {| Smart.media := {| romajiTitle := "Sousou no Frieren";
                       englishTitle := "";
                       absoluteSeasonOffset := offset |};
     Smart.query := "";
     Smart.batch := false;
     Smart.episodeNumber := ep;
     Smart.resolution := label |}.

Definition release3 : SubsPleaseRelease :=
  {| show := "X";
     episode := "3";
     downloads :=
       [ {| res := "720"; magnet := "magnet:?xt=urn:btih:HASH1&xl=500" |};
         {| res := "1080"; magnet := "magnet:?xt=urn:btih:hash2" |} ];
     release_date := "2024-01-01T00:00:00Z";
     page := "x" |}.

Definition releaseBatch : SubsPleaseRelease :=
  {| show := "X";
     episode := "Batch";
     downloads := [ {| res := "1080"; magnet := "magnet:?xt=urn:btih:B" |} ];
     release_date := "";
     page := "x" |}.

Definition releaseMinus5 : SubsPleaseRelease :=
  {| show := "X";
     episode := "-5";
     downloads := [ {| res := "720"; magnet := "" |} ];
     release_date := "";
     page := "x" |}.

(** A runtime that answers every request with [response], parses only the
    one date [2024-01-01T00:00:00Z] and whose clock starts in 2027. *)
Definition runtimeWith (response : Response) : Runtime :=
  {| fetch := fun _ => Ok response;
     Date_parse := fun s =>
       if (s =? "2024-01-01T00:00:00Z")%string then Some 1704067200000
       else None;
     Date_now := fun reads => 1800000000000 + Z.min (Z.of_nat reads) 1000 |}.

Definition notFound : Response :=
  {| ok := false; status := Fin 404; json := Throw (Rejection "no body") |}.

Definition found : Response :=
  {| ok := true; status := Fin 200;
     json := Ok (JsonObject [("1", release3); ("2", releaseBatch)]) |}.

End Samples.

(* ===================================================================== *)
(** * Vocabulary of the further properties *)
(* ===================================================================== *)

Module Derived.

Import JS.

(** The constraint the episode block of [smartSearch] puts on an entity:
    none unless the target is above 0. *)
Definition episodeWanted (opts : Smart.AnimeSmartSearchOptions)
  (t : AnimeTorrent) : bool :=
  negb (gt (Smart.episodeNumber opts) (Fin 0))
  || (negb (isBatch t)
      && (strict_eq (episodeNumber t) (Smart.episodeNumber opts)
          || strict_eq (episodeNumber t)
               (add (absoluteSeasonOffset (Smart.media opts))
                  (Smart.episodeNumber opts)))).

(** The constraint the resolution block puts on an entity: none unless the
    target is not empty and parses. *)
Definition resolutionWanted (opts : Smart.AnimeSmartSearchOptions)
  (t : AnimeTorrent) : bool :=
  (Smart.resolution opts =? "")%string
  || isNaN (parseInt (replace "p" "" (Smart.resolution opts)))
  || strict_eq (parseInt (replace "p" "" (resolution t)))
       (parseInt (replace "p" "" (Smart.resolution opts))).

(** The releases of a payload the builder hands to the normalizer, in the
    order of the payload. *)
Definition nonBatch (entries : list (string * SubsPleaseRelease))
  : list SubsPleaseRelease :=
  filter (fun release => negb (episode release =? "Batch")%string)
    (map snd entries).

(** A release whose date the engine does not parse to a time value. *)
Definition dateUnparsed (rt : Runtime) (release : SubsPleaseRelease) : bool :=
  match Provider.newDate rt (release_date release) with
  | Some _ => false
  | None => true
  end.

Definition unparsedDates (rt : Runtime) (releases : list SubsPleaseRelease)
  : nat :=
  List.length (filter (dateUnparsed rt) releases).

(** The characters an encoded query is made of. *)
Definition isUpperHex (c : ascii) : bool :=
  isDigit c || in_range "A" "F" c.

Definition urlSafe (c : ascii) : bool :=
  isUnreserved c || Ascii.eqb c "%".

(** The fields the normalizer fills with constants. *)
Definition constantFields (t : AnimeTorrent) : Prop :=
  seeders t = Fin (-1) /\ leechers t = Fin (-1) /\ downloadCount t = Fin 0
  /\ downloadUrl t = "" /\ isBatch t = false
  /\ releaseGroup t = "SubsPlease" /\ isBestRelease t = false
  /\ confirmed t = true.

(** The fields the normalizer derives from the magnet URI it passes on. *)
Definition magnetFields (t : AnimeTorrent) : Prop :=
  infoHash t = Provider.getHashFromMagnet (magnetLink t)
  /\ size t = Provider.getSizeFromMagnet (magnetLink t)
  /\ Provider.getTorrentMagnetLink t = magnetLink t.


End Derived.

(* ===================================================================== *)
(** * Properties *)
(* ===================================================================== *)

Import JS Provider.

#[local] Open Scope list_scope.

(** ** Numbers *)

(** [===] is equality of Numbers other than NaN. *)
Lemma strict_eq_true_iff (x y : number) :
  strict_eq x y = true <-> x = y /\ x <> NaN.
Proof.
  split.
  - destruct x as [|a|s], y as [|b|s']; simpl; intros E; try discriminate E.
    + apply Z.eqb_eq in E. subst b. split; [reflexivity | discriminate].
    + apply Bool.eqb_prop in E. subst s'. split; [reflexivity | discriminate].
  - intros [<- N]. destruct x as [|a|s]; simpl.
    + contradiction.
    + apply Z.eqb_refl.
    + apply Bool.eqb_reflx.
Qed.

Lemma gt_zero_not_NaN (x : number) : gt x (Fin 0) = true -> x <> NaN.
Proof. destruct x; simpl; congruence. Qed.

Lemma toDouble_exact (z : Z) : Z.abs z < 2 ^ 53 -> toDouble z = Fin z.
Proof.
  intros B. unfold toDouble. apply Z.ltb_lt in B. now rewrite B.
Qed.

Lemma toDouble_nonneg (z z' : Z) : 0 <= z -> toDouble z = Fin z' -> 0 <= z'.
Proof.
  intros P. unfold toDouble. destruct (Z.abs z <? 2 ^ 53).
  - intros H. inversion H. now subst.
  - cbv zeta.
    set (e := Z.log2 (Z.abs z) - 52).
    set (q := Z.abs z / 2 ^ e).
    match goal with
    | |- context [if ?b then q + 1 else q] =>
        set (q' := if b then q + 1 else q);
        assert (Q' : q <= q') by (unfold q'; destruct b; lia)
    end.
    destruct (2 ^ 1024 <=? q' * 2 ^ e); [discriminate|].
    intros H. inversion H.
    assert (0 <= 2 ^ e) by apply Z.pow_nonneg, Z.lt_le_incl, Z.lt_0_2.
    assert (0 <= q) by (apply Z_div_nonneg_nonneg; [apply Z.abs_nonneg | assumption]).
    assert (0 <= q') by lia.
    apply Z.mul_nonneg_nonneg; [now apply Z.sgn_nonneg | now apply Z.mul_nonneg_nonneg].
Qed.

(** ** Strings *)

Lemma append_nil_r (s : string) : (s ++ "")%string = s.
Proof. induction s as [|c s IH]; simpl; congruence. Qed.

Lemma append_assoc (a b c : string) :
  ((a ++ b) ++ c)%string = (a ++ b ++ c)%string.
Proof. induction a as [|x a IH]; simpl; congruence. Qed.

Lemma append_inv_head (a b c : string) :
  (a ++ b)%string = (a ++ c)%string -> b = c.
Proof. induction a as [|x a IH]; simpl; intros E; [exact E | inversion E; auto]. Qed.

Lemma append_eq_length (a a' b b' : string) :
  (a ++ b)%string = (a' ++ b')%string ->
  String.length a = String.length a' ->
  a = a' /\ b = b'.
Proof.
  revert a'. induction a as [|x a IH]; intros [|x' a'] E L;
    try discriminate L.
  - now split.
  - simpl in E, L. inversion E; subst. injection L as L.
    destruct (IH a' H1 L) as [-> ->]. now split.
Qed.

Lemma drop_append (a rest : string) : drop (String.length a) (a ++ rest) = rest.
Proof. induction a as [|x a IH]; simpl; [now destruct rest | exact IH]. Qed.

Lemma prefix_append (a rest : string) : String.prefix a (a ++ rest) = true.
Proof.
  induction a as [|x a IH]; simpl.
  - now destruct rest.
  - destruct (ascii_dec x x); [exact IH | contradiction].
Qed.

Lemma prefix_split (a s : string) :
  String.prefix a s = true -> s = (a ++ drop (String.length a) s)%string.
Proof.
  revert s. induction a as [|x a IH]; intros s P.
  - now destruct s.
  - destruct s as [|y s]; simpl in P; [discriminate|].
    destruct (ascii_dec x y) as [->|]; [|discriminate].
    simpl. f_equal. now apply IH.
Qed.

Lemma prefix_char (x c : ascii) (s : string) :
  String.prefix (String x "") (String c s) = Ascii.eqb x c.
Proof.
  simpl. destruct (ascii_dec x c) as [->|N].
  - rewrite Ascii.eqb_refl. now destruct s.
  - symmetry. now apply Ascii.eqb_neq.
Qed.

Section Runs.

Variable cls : ascii -> bool.

Lemma takeWhile_allOf (s : string) : allOf cls (takeWhile cls s) = true.
Proof.
  induction s as [|c s IH]; simpl; [reflexivity|].
  destruct (cls c) eqn:C; simpl; [now rewrite C|reflexivity].
Qed.

Lemma takeWhile_split (s : string) :
  exists after, s = (takeWhile cls s ++ after)%string /\ Spec.stops cls after.
Proof.
  induction s as [|c s (after & E & St)]; simpl.
  - exists "". split; [reflexivity | intros c rest H; discriminate H].
  - destruct (cls c) eqn:C.
    + exists after. simpl. split; [congruence | exact St].
    + exists (String c s). split; [reflexivity|].
      intros c' rest H. inversion H; subst. exact C.
Qed.

Lemma takeWhile_run (token after : string) :
  allOf cls token = true -> Spec.stops cls after ->
  takeWhile cls (token ++ after) = token.
Proof.
  intros All St. induction token as [|c token IH]; simpl in *.
  - destruct after as [|c rest]; [reflexivity|].
    simpl. now rewrite (St c rest eq_refl).
  - apply andb_true_iff in All as [C All]. rewrite C. f_equal. now apply IH.
Qed.

Lemma takeWhile_all (token : string) :
  allOf cls token = true -> takeWhile cls token = token.
Proof.
  intros All. rewrite <- (append_nil_r token) at 1.
  apply takeWhile_run; [exact All | intros c rest H; discriminate H].
Qed.

Lemma run_unique (token token' after after' : string) :
  (token ++ after)%string = (token' ++ after')%string ->
  allOf cls token = true -> allOf cls token' = true ->
  Spec.stops cls after -> Spec.stops cls after' ->
  token = token'.
Proof.
  intros E All All' St St'.
  rewrite <- (takeWhile_run token after All St).
  rewrite <- (takeWhile_run token' after' All' St').
  now rewrite E.
Qed.

Variable marker : string.

Lemma matchHere_Some (s group : string) :
  matchHere marker cls s = Some group ->
  exists after,
    s = (marker ++ group ++ after)%string
    /\ group <> "" /\ allOf cls group = true /\ Spec.stops cls after.
Proof.
  unfold matchHere. destruct (String.prefix marker s) eqn:P; [|discriminate].
  apply prefix_split in P.
  destruct (takeWhile_split (drop (String.length marker) s)) as (after & E & St).
  pose proof (takeWhile_allOf (drop (String.length marker) s)) as All.
  destruct (takeWhile cls (drop (String.length marker) s)) as [|c run] eqn:T;
    [discriminate|].
  intros H. inversion H; subst group. exists after.
  split; [now rewrite <- E|]. split; [discriminate|]. split; assumption.
Qed.

Lemma matchHere_None (s : string) :
  matchHere marker cls s = None -> ~ Spec.occursAfter marker cls s "".
Proof.
  unfold matchHere. intros H (c & after & E & C). simpl in E.
  rewrite E, prefix_append, drop_append in H. simpl in H.
  rewrite C in H. discriminate H.
Qed.

(** The matcher computes the token that follows the marker. *)
Lemma matchGroup_spec (s : string) :
  Spec.TokenAfter marker cls s (matchGroup marker cls s).
Proof.
  induction s as [|a s IH].
  - cbn [matchGroup]. destruct (matchHere marker cls "") as [group|] eqn:M.
    + destruct (matchHere_Some _ _ M) as (after & E & N & All & St).
      now apply (Spec.TokenFound marker cls "" "" group after);
        [exact E | | | | intros; apply Nat.le_0_l].
    + apply Spec.TokenAbsent. intros [|b before'] (c & after & E & C).
      * apply (matchHere_None _ M). now exists c, after.
      * discriminate E.
  - cbn [matchGroup]. destruct (matchHere marker cls (String a s)) as [group|] eqn:M.
    + destruct (matchHere_Some _ _ M) as (after & E & N & All & St).
      now apply (Spec.TokenFound marker cls _ "" group after);
        [exact E | | | | intros; apply Nat.le_0_l].
    + inversion IH as [before token after E N All St First Tok | Absent Tok].
      * apply (Spec.TokenFound marker cls _ (String a before) token after);
          [simpl; now rewrite <- E | exact N | exact All | exact St |].
        intros [|b before'] (c & after' & E' & C).
        -- exfalso. apply (matchHere_None _ M). now exists c, after'.
        -- simpl in E'. inversion E'; subst b. simpl. apply le_n_S.
           apply First. now exists c, after'.
      * apply Spec.TokenAbsent. intros [|b before'] (c & after' & E' & C).
        -- apply (matchHere_None _ M). now exists c, after'.
        -- simpl in E'. inversion E'; subst b.
           apply (Absent before'). now exists c, after'.
Qed.

(** The token is determined by the string: the specification is a
    function. *)
Lemma TokenAfter_functional (s : string) (found found' : option string) :
  Spec.TokenAfter marker cls s found ->
  Spec.TokenAfter marker cls s found' ->
  found = found'.
Proof.
  assert (Occurs : forall before token after,
             s = (before ++ marker ++ token ++ after)%string ->
             token <> "" -> allOf cls token = true ->
             Spec.occursAfter marker cls s before).
  { intros before [|c token] after E N All; [contradiction|].
    simpl in All. apply andb_true_iff in All as [C _].
    exists c, (token ++ after)%string. split; [exact E | exact C]. }
  intros [before token after E N All St First | Absent]
         [before' token' after' E' N' All' St' First' | Absent'].
  - pose proof (Occurs _ _ _ E N All) as O.
    pose proof (Occurs _ _ _ E' N' All') as O'.
    assert (L : String.length before = String.length before')
      by (apply Nat.le_antisymm; [apply First | apply First']; assumption).
    rewrite E in E'. destruct (append_eq_length _ _ _ _ E' L) as [_ Tail].
    apply append_inv_head in Tail.
    f_equal. exact (run_unique _ _ _ _ Tail All All' St St').
  - exfalso. exact (Absent' _ (Occurs _ _ _ E N All)).
  - exfalso. exact (Absent _ (Occurs _ _ _ E' N' All')).
  - reflexivity.
Qed.

End Runs.

(** ** Reading integers *)

Lemma isDigit_range (c : ascii) : isDigit c = true <-> 48 <= byte c <= 57.
Proof.
  unfold isDigit, in_range. change (byte "0") with 48. change (byte "9") with 57.
  rewrite andb_true_iff, !Z.leb_le. reflexivity.
Qed.

Lemma digit_is_no_sign (c : ascii) :
  isDigit c = true -> Ascii.eqb "-" c = false /\ Ascii.eqb "+" c = false.
Proof.
  intros D. apply isDigit_range in D.
  split; apply Ascii.eqb_neq; intros <-; vm_compute in D;
    destruct D as [D _]; now apply D.
Qed.

Lemma wsLength_digit (c : ascii) (s : string) :
  isDigit c = true -> wsLength (String c s) = 0%nat.
Proof.
  intros D. apply isDigit_range in D. unfold wsLength.
  assert (T : forall x, x < 48 \/ 57 < x -> (byte c =? x) = false)
    by (intros x Hx; apply Z.eqb_neq; lia).
  rewrite (T 32), (T 194), (T 225), (T 226), (T 227), (T 239) by lia.
  replace (byte c <=? 13) with false by (symmetry; apply Z.leb_gt; lia).
  rewrite andb_false_r. cbn [orb andb].
  destruct s as [|c1 [|c2 s]]; reflexivity.
Qed.

Lemma trimStart_digit (c : ascii) (s : string) :
  isDigit c = true -> trimStart (String c s) = String c s.
Proof.
  intros D. unfold trimStart. cbn [String.length trimStartFuel].
  now rewrite wsLength_digit.
Qed.

Lemma decimalValueFrom_nonneg (digits : string) (acc : Z) :
  allOf isDigit digits = true -> 0 <= acc -> 0 <= decimalValueFrom acc digits.
Proof.
  revert acc. induction digits as [|c s IH]; intros acc All P;
    cbn [decimalValueFrom].
  - exact P.
  - cbn [allOf] in All. apply andb_true_iff in All as [D All].
    apply isDigit_range in D. apply IH; [exact All|]. unfold digitValue. lia.
Qed.

(** On a run of digits, [parseInt] is the Number nearest to the integer
    the digits write. *)
Lemma parseInt_digits (digits : string) :
  digits <> "" -> allOf isDigit digits = true ->
  parseInt digits = toDouble (decimalValue digits).
Proof.
  destruct digits as [|c s]; [contradiction|]. intros _ All.
  pose proof (takeWhile_all isDigit _ All) as Run.
  cbn [allOf] in All. apply andb_true_iff in All as [D _].
  destruct (digit_is_no_sign c D) as [Minus Plus].
  unfold parseInt. rewrite (trimStart_digit c s D), !prefix_char, Minus, Plus.
  cbn [orb]. rewrite Run. cbn [String.eqb]. now rewrite Z.mul_1_l.
Qed.


(** ** Dates *)

Section Dates.

#[local] Open Scope string_scope.
#[local] Open Scope Z_scope.

Lemma DayFromYear_step (y : Z) : DayFromYear (y + 1) - DayFromYear y = DaysInYear y.
Proof.
  unfold DayFromYear, DaysInYear.
  destruct (Z.eqb_spec (y mod 4) 0), (Z.eqb_spec (y mod 100) 0), (Z.eqb_spec (y mod 400) 0);
    cbn [negb]; Z.div_mod_to_equations; lia.
Qed.

Lemma YearFromTime_bracket (t : Z) :
  DayFromYear (YearFromTime t) <= Day t < DayFromYear (YearFromTime t + 1).
Proof.
  unfold YearFromTime. cbv zeta.
  set (d := Day t). set (y := 1970 + 400 * d / 146097).
  assert (Lo : DayFromYear (y - 1) <= d).
  { unfold y, DayFromYear. Z.div_mod_to_equations. lia. }
  assert (Hi : d < DayFromYear (y + 2)).
  { unfold y, DayFromYear. Z.div_mod_to_equations. lia. }
  destruct (Z.ltb_spec d (DayFromYear y)).
  - replace (y - 1 + 1) with y by lia. lia.
  - destruct (Z.leb_spec (DayFromYear (y + 1)) d).
    + replace (y + 1 + 1) with (y + 2) by lia. lia.
    + lia.
Qed.

Lemma DayWithinYear_range (t : Z) :
  0 <= DayWithinYear t < DaysInYear (YearFromTime t).
Proof.
  unfold DayWithinYear. pose proof (YearFromTime_bracket t).
  pose proof (DayFromYear_step (YearFromTime t)). lia.
Qed.

Lemma DaysInYear_cases (y : Z) : DaysInYear y = 365 \/ DaysInYear y = 366.
Proof.
  unfold DaysInYear.
  destruct (negb _); [now left|]. destruct (negb _); [now right|].
  destruct (negb _); [now left | now right].
Qed.

Lemma MonthFromTime_range (t : Z) : 0 <= MonthFromTime t <= 11.
Proof.
  unfold MonthFromTime. cbv zeta.
  repeat match goal with |- context [if ?b then _ else _] => destruct b end; lia.
Qed.

Lemma DateFromTime_range (t : Z) :
  1 <= DateFromTime t <= daysInMonth (YearFromTime t) (MonthFromTime t + 1).
Proof.
  pose proof (DayWithinYear_range t) as R.
  unfold DateFromTime, MonthFromTime, daysInMonth, InLeapYear in *. cbv zeta.
  set (d := DayWithinYear t) in *.
  destruct (DaysInYear_cases (YearFromTime t)) as [E|E]; rewrite E in *;
    cbn [Z.eqb Pos.eqb];
    repeat match goal with
           | |- context [if ?x <? ?y then _ else _] =>
               destruct (Z.ltb_spec x y)
           end; cbn; lia.
Qed.

Lemma YearFromTime_range (t : Z) :
  isTimeValue t = true -> -999999 <= YearFromTime t <= 999999.
Proof.
  unfold isTimeValue. intros B. apply Z.leb_le in B.
  pose proof (YearFromTime_bracket t) as [Lo Hi].
  set (y := YearFromTime t) in *.
  assert (D : -100000000 <= Day t <= 100000000).
  { unfold Day, msPerDay. Z.div_mod_to_equations. lia. }
  unfold DayFromYear in Lo, Hi. Z.div_mod_to_equations. lia.
Qed.

Lemma digitChar_cases (d : Z) :
  0 <= d < 10 ->
  In (digitChar d) ["0"; "1"; "2"; "3"; "4"; "5"; "6"; "7"; "8"; "9"]%char
  /\ isDigit (digitChar d) = true /\ digitValue (digitChar d) = d.
Proof.
  intros R.
  assert (C : d = 0 \/ d = 1 \/ d = 2 \/ d = 3 \/ d = 4 \/ d = 5 \/ d = 6
              \/ d = 7 \/ d = 8 \/ d = 9) by lia.
  repeat destruct C as [->|C]; try subst d; vm_compute; intuition congruence.
Qed.

Lemma readDigit_digitChar (d : Z) (rest : string) :
  0 <= d < 10 -> readDigit (String (digitChar d) rest) = Some (d, rest).
Proof.
  intros R. destruct (digitChar_cases d R) as (_ & D & V).
  unfold readDigit. now rewrite D, V.
Qed.

Lemma readChar_digitChar (c : ascii) (d : Z) (rest : string) :
  isDigit c = false -> 0 <= d < 10 ->
  readChar c (String (digitChar d) rest) = None.
Proof.
  intros N R. destruct (digitChar_cases d R) as (_ & D & _).
  unfold readChar. destruct (Ascii.eqb_spec c (digitChar d)) as [E|_];
    [congruence | reflexivity].
Qed.

Lemma readChar_same (c : ascii) (rest : string) :
  readChar c (String c rest) = Some rest.
Proof. unfold readChar. now rewrite Ascii.eqb_refl. Qed.

Lemma readDigits_snoc (w : nat) (acc : Z) (s : string) :
  readDigits (S w) acc s
  = match readDigits w acc s with
    | Some (v, s') =>
        match readDigit s' with
        | Some (d, s'') => Some (10 * v + d, s'')
        | None => None
        end
    | None => None
    end.
Proof.
  revert acc s. induction w as [|w IH]; intros acc s.
  - cbn [readDigits]. now destruct (readDigit s) as [[d s']|].
  - change (readDigits (S (S w)) acc s)
      with (match readDigit s with
            | Some (d, s') => readDigits (S w) (10 * acc + d) s'
            | None => None
            end).
    change (readDigits (S w) acc s)
      with (match readDigit s with
            | Some (d, s') => readDigits w (10 * acc + d) s'
            | None => None
            end).
    destruct (readDigit s) as [[d s']|]; [apply IH | reflexivity].
Qed.

Lemma readDigits_fixedDigits (w : nat) (n acc : Z) (rest : string) :
  0 <= n < 10 ^ Z.of_nat w ->
  readDigits w acc (fixedDigits w n ++ rest)
  = Some (acc * 10 ^ Z.of_nat w + n, rest).
Proof.
  revert n rest. induction w as [|w IH]; intros n rest R.
  - cbn [readDigits fixedDigits String.append]. f_equal. f_equal.
    change (10 ^ Z.of_nat 0) with 1 in *. lia.
  - rewrite Nat2Z.inj_succ, Z.pow_succ_r in * by lia.
    rewrite readDigits_snoc. cbn [fixedDigits].
    rewrite append_assoc. cbn [String.append].
    rewrite IH by (Z.div_mod_to_equations; lia).
    rewrite readDigit_digitChar by (Z.div_mod_to_equations; lia).
    f_equal. f_equal. Z.div_mod_to_equations. lia.
Qed.

Lemma fixedDigits_head (w : nat) (n : Z) :
  0 <= n -> exists d tail, 0 <= d < 10 /\ fixedDigits (S w) n = String (digitChar d) tail.
Proof.
  revert n. induction w as [|w IH]; intros n P.
  - exists (n mod 10), "". split; [Z.div_mod_to_equations; lia | reflexivity].
  - destruct (IH (n / 10)) as (d & tail & R & E);
      [Z.div_mod_to_equations; lia|].
    exists d, (tail ++ String (digitChar (n mod 10)) "").
    split; [exact R|]. change (fixedDigits (S (S w)) n)
      with (fixedDigits (S w) (n / 10) ++ String (digitChar (n mod 10)) "").
    now rewrite E.
Qed.

Lemma readYear_toISOString (y : Z) (rest : string) :
  -999999 <= y <= 999999 ->
  readYear ((if (0 <=? y) && (y <=? 9999) then fixedDigits 4 y
             else (if y <? 0 then "-" else "+") ++ fixedDigits 6 (Z.abs y))
            ++ rest)
  = Some (y, rest).
Proof.
  intros R. unfold readYear.
  destruct (Z.leb_spec 0 y) as [P|N]; [destruct (Z.leb_spec y 9999) as [S|L]|];
    cbn [andb].
  - destruct (fixedDigits_head 3 y P) as (d & tail & D & E).
    rewrite E. cbn [String.append].
    rewrite !readChar_digitChar by (reflexivity || exact D).
    change (String (digitChar d) (tail ++ rest)) with (String (digitChar d) tail ++ rest).
    rewrite <- E, readDigits_fixedDigits by (change (10 ^ Z.of_nat 4) with 10000; lia).
    reflexivity.
  - destruct (Z.ltb_spec y 0); [lia|]. cbn [String.append].
    rewrite readChar_same, Z.abs_eq by lia.
    rewrite readDigits_fixedDigits by (change (10 ^ Z.of_nat 6) with 1000000; lia).
    reflexivity.
  - destruct (Z.ltb_spec y 0); [|lia]. cbn [String.append].
    change (readChar "+" (String "-" (fixedDigits 6 (Z.abs y) ++ rest))) with (@None string).
    rewrite readChar_same.
    rewrite readDigits_fixedDigits by (change (10 ^ Z.of_nat 6) with 1000000; lia).
    cbn [Z.mul Z.add]. destruct (Z.eqb_spec (Z.abs y) 0); [lia|].
    f_equal. f_equal. lia.
Qed.

Lemma two_digits (n acc : Z) (rest : string) :
  0 <= n <= 99 ->
  readDigits 2 acc (fixedDigits 2 n ++ rest) = Some (acc * 100 + n, rest).
Proof.
  intros R. rewrite readDigits_fixedDigits by (change (10 ^ Z.of_nat 2) with 100; lia).
  reflexivity.
Qed.

Lemma toISOString_valid (t : Z) :
  isTimeValue t = true -> isISODateTime (toISOString t) = true.
Proof.
  intros TV. pose proof (YearFromTime_range t TV) as Y.
  pose proof (MonthFromTime_range t) as M.
  pose proof (DateFromTime_range t) as D.
  assert (DM : daysInMonth (YearFromTime t) (MonthFromTime t + 1) <= 31).
  { unfold daysInMonth.
    repeat match goal with |- context [match ?x with _ => _ end] => destruct x end; lia. }
  assert (H : 0 <= HourFromTime t <= 23) by (unfold HourFromTime; Z.div_mod_to_equations; lia).
  assert (Mi : 0 <= MinFromTime t <= 59) by (unfold MinFromTime; Z.div_mod_to_equations; lia).
  assert (S : 0 <= SecFromTime t <= 59) by (unfold SecFromTime; Z.div_mod_to_equations; lia).
  assert (Ms : 0 <= msFromTime t <= 999) by (unfold msFromTime; Z.div_mod_to_equations; lia).
  unfold isISODateTime, toISOString. cbv zeta.
  rewrite readYear_toISOString by exact Y.
  cbn [String.append]. rewrite readChar_same, two_digits by lia.
  cbn [String.append]. rewrite readChar_same, two_digits by lia.
  cbn [String.append]. rewrite readChar_same, two_digits by lia.
  cbn [String.append]. rewrite readChar_same, two_digits by lia.
  cbn [String.append]. rewrite readChar_same, two_digits by lia.
  cbn [String.append]. rewrite readChar_same.
  rewrite readDigits_fixedDigits by (change (10 ^ Z.of_nat 3) with 1000; lia).
  cbn [String.eqb Ascii.eqb Bool.eqb]. unfold between.
  cbn [Z.mul Z.add].
  repeat (apply andb_true_iff; split); try apply Z.leb_le; try lia; reflexivity.
Qed.

Lemma MakeDay_fields (t : Z) :
  MakeDay (YearFromTime t) (MonthFromTime t + 1) (DateFromTime t) = Day t.
Proof.
  pose proof (DayWithinYear_range t) as R.
  unfold MakeDay, daysBeforeMonth, DateFromTime, MonthFromTime, InLeapYear in *.
  cbv zeta.
  assert (D : Day t = DayFromYear (YearFromTime t) + DayWithinYear t)
    by (unfold DayWithinYear; lia).
  rewrite D. set (d := DayWithinYear t) in *.
  destruct (DaysInYear_cases (YearFromTime t)) as [E|E]; rewrite E in *;
    cbn [Z.eqb Pos.eqb];
    repeat match goal with
           | |- context [if ?x <? ?y then _ else _] =>
               destruct (Z.ltb_spec x y)
           end; cbn; lia.
Qed.

Lemma MakeTime_fields (t : Z) :
  MakeDate (Day t)
    (MakeTime (HourFromTime t) (MinFromTime t) (SecFromTime t) (msFromTime t))
  = t.
Proof.
  unfold MakeDate, MakeTime, Day, msPerDay, HourFromTime, MinFromTime,
    SecFromTime, msFromTime.
  Z.div_mod_to_equations. lia.
Qed.

Lemma readISOFields_toISOString (t : Z) :
  isTimeValue t = true ->
  readISOFields (toISOString t)
  = Some (YearFromTime t, MonthFromTime t + 1, DateFromTime t,
          HourFromTime t, MinFromTime t, SecFromTime t, msFromTime t).
Proof.
  intros TV. pose proof (YearFromTime_range t TV) as Y.
  pose proof (MonthFromTime_range t) as M.
  pose proof (DateFromTime_range t) as D.
  assert (DM : daysInMonth (YearFromTime t) (MonthFromTime t + 1) <= 31).
  { unfold daysInMonth.
    repeat match goal with |- context [match ?x with _ => _ end] => destruct x end; lia. }
  assert (H : 0 <= HourFromTime t <= 23) by (unfold HourFromTime; Z.div_mod_to_equations; lia).
  assert (Mi : 0 <= MinFromTime t <= 59) by (unfold MinFromTime; Z.div_mod_to_equations; lia).
  assert (S : 0 <= SecFromTime t <= 59) by (unfold SecFromTime; Z.div_mod_to_equations; lia).
  assert (Ms : 0 <= msFromTime t <= 999) by (unfold msFromTime; Z.div_mod_to_equations; lia).
  unfold readISOFields, toISOString. cbv zeta.
  rewrite readYear_toISOString by exact Y.
  cbn [andThen String.append]. rewrite readChar_same. cbn [andThen].
  rewrite two_digits by lia.
  cbn [andThen String.append]. rewrite readChar_same. cbn [andThen].
  rewrite two_digits by lia.
  cbn [andThen String.append]. rewrite readChar_same. cbn [andThen].
  rewrite two_digits by lia.
  cbn [andThen String.append]. rewrite readChar_same. cbn [andThen].
  rewrite two_digits by lia.
  cbn [andThen String.append]. rewrite readChar_same. cbn [andThen].
  rewrite two_digits by lia.
  cbn [andThen String.append]. rewrite readChar_same. cbn [andThen].
  rewrite readDigits_fixedDigits by (change (10 ^ Z.of_nat 3) with 1000; lia).
  cbn [andThen String.eqb Ascii.eqb Bool.eqb]. cbn [Z.mul Z.add]. reflexivity.
Qed.

(** Reading back what [toISOString] wrote gives the time value it was
    given: the string denotes that instant and no other. *)
Lemma toISOString_reads_back (t : Z) :
  isTimeValue t = true -> parseISODateTime (toISOString t) = Some t.
Proof.
  intros TV. unfold parseISODateTime.
  rewrite (readISOFields_toISOString t TV).
  pose proof (MonthFromTime_range t) as M.
  pose proof (DateFromTime_range t) as D.
  assert (H : 0 <= HourFromTime t <= 23) by (unfold HourFromTime; Z.div_mod_to_equations; lia).
  assert (Mi : 0 <= MinFromTime t <= 59) by (unfold MinFromTime; Z.div_mod_to_equations; lia).
  assert (S : 0 <= SecFromTime t <= 59) by (unfold SecFromTime; Z.div_mod_to_equations; lia).
  assert (Ranges :
            between 1 (MonthFromTime t + 1) 12
            && between 1 (DateFromTime t)
                 (daysInMonth (YearFromTime t) (MonthFromTime t + 1))
            && between 0 (HourFromTime t) 23 && between 0 (MinFromTime t) 59
            && between 0 (SecFromTime t) 59 = true).
  { unfold between.
    repeat (apply andb_true_iff; split); apply Z.leb_le; lia. }
  rewrite Ranges, MakeDay_fields, MakeTime_fields.
  unfold TimeClip. now rewrite TV.
Qed.

End Dates.

(** ** The Magnet Parser *)

Lemma upperChar_alnum (c : ascii) :
  isAlnum c = true -> Spec.isUpperAlnum (upperChar c) = true.
Proof.
  destruct c as [[] [] [] [] [] [] [] []]; vm_compute; intros H;
    first [reflexivity | discriminate H].
Qed.

Lemma toUpperCase_alnum (token : string) :
  allOf isAlnum token = true ->
  allOf Spec.isUpperAlnum (toUpperCase token) = true.
Proof.
  induction token as [|c token IH]; [reflexivity|].
  cbn [allOf toUpperCase]. rewrite !andb_true_iff. intros [C All].
  split; [now apply upperChar_alnum | now apply IH].
Qed.

(** C6, as stated, fails for the size: the integer that follows [xl=] is
    returned as a Number, so from 2^53 on it may be another integer (here
    the next lower one), and a run of 310 digits gives Infinity. *)
Lemma size_beyond_2_53_is_not_the_integer_written :
  Spec.TokenAfter "xl=" isDigit
    "magnet:?xt=urn:btih:ABCD1234&xl=9007199254740993"
    (Some "9007199254740993"%string)
  /\ decimalValue "9007199254740993" = 9007199254740993
  /\ getSizeFromMagnet "magnet:?xt=urn:btih:ABCD1234&xl=9007199254740993"
     = Fin 9007199254740992
  /\ getSizeFromMagnet "magnet:?xt=urn:btih:ABCD1234&xl=9007199254740993"
     <> Fin 9007199254740993
  /\ getSizeFromMagnet
       ("magnet:?xt=urn:btih:ABCD1234&xl=" ++ repeatChar "9" 310)%string
     = Inf false.
Proof.
  split; [|split; [|split; [|split]]].
  - exact (matchGroup_spec isDigit "xl="
             "magnet:?xt=urn:btih:ABCD1234&xl=9007199254740993").
  - vm_compute. reflexivity.
  - vm_compute. reflexivity.
  - intros Same. vm_compute in Same. discriminate Same.
  - vm_compute. reflexivity.
Qed.

(** C6, amended.  Whatever the magnet, each field has its token or lacks
    it, and the parser follows: the info-hash is the token of letters and
    digits after the first [btih:] marker that one follows, in upper case,
    and the empty string when there is none; the size is the Number
    [parseInt] gives for the digits after the first [xl=] marker that
    digits follow, that is the double nearest to the integer they write
    (Infinity when it overflows), which is that very integer below 2^53,
    and 0 when there is none.  Both functions are total, so a malformed
    magnet yields the defaults.  The two magnets of the specification
    parse as it says. *)
Theorem magnet_parser_contract :
  (forall magnet,
      (exists found, Spec.TokenAfter "btih:" isAlnum magnet found)
      /\ (exists found, Spec.TokenAfter "xl=" isDigit magnet found))
  /\ (forall magnet found,
         Spec.TokenAfter "btih:" isAlnum magnet found ->
         getHashFromMagnet magnet
         = match found with
           | Some token => toUpperCase token
           | None => ""%string
           end
         /\ allOf Spec.isUpperAlnum (getHashFromMagnet magnet) = true)
  /\ (forall magnet found,
         Spec.TokenAfter "xl=" isDigit magnet found ->
         getSizeFromMagnet magnet
         = match found with
           | Some digits => toDouble (decimalValue digits)
           | None => Fin 0
           end
         /\ (forall digits,
               found = Some digits -> decimalValue digits < 2 ^ 53 ->
               getSizeFromMagnet magnet = Fin (decimalValue digits)))
  /\ getHashFromMagnet "magnet:?xt=urn:btih:ABCD1234&xl=1048576" = "ABCD1234"%string
  /\ getSizeFromMagnet "magnet:?xt=urn:btih:ABCD1234&xl=1048576" = Fin 1048576
  /\ getHashFromMagnet "magnet:?xt=urn:btih:" = ""%string
  /\ getSizeFromMagnet "magnet:?xt=urn:btih:" = Fin 0.
Proof.
  split; [|split; [|split; [|repeat split]]].
  - intros magnet. split.
    + exists (matchGroup "btih:" isAlnum magnet). apply matchGroup_spec.
    + exists (matchGroup "xl=" isDigit magnet). apply matchGroup_spec.
  - intros magnet found Tok.
    pose proof (matchGroup_spec isAlnum "btih:" magnet) as Code.
    rewrite (TokenAfter_functional _ _ _ _ _ Tok Code). clear Tok.
    unfold getHashFromMagnet. split; [reflexivity|].
    inversion Code as [before token after E N All St First Found | Absent Found].
    + now apply toUpperCase_alnum.
    + reflexivity.
  - intros magnet found Tok.
    pose proof (matchGroup_spec isDigit "xl=" magnet) as Code.
    rewrite (TokenAfter_functional _ _ _ _ _ Tok Code). clear Tok.
    unfold getSizeFromMagnet.
    inversion Code as [before token after E N All St First Found | Absent Found].
    + rewrite (parseInt_digits token N All). split; [reflexivity|].
      intros digits H B. inversion H; subst digits.
      apply toDouble_exact.
      pose proof (decimalValueFrom_nonneg token 0 All (Z.le_refl 0)) as P.
      fold (decimalValue token) in P. lia.
    + split; [reflexivity|]. intros digits H. discriminate H.
Qed.

(** A magnet whose first [btih:] marker has no token behind it, whose
    second has one, and whose size has seventeen digits. *)
Lemma magnet_parser_contract_witness :
  Spec.TokenAfter "btih:" isAlnum "btih:&xt=urn:btih:c0ffee-1&xl=90071992547409930"
    (Some "c0ffee"%string)
  /\ getHashFromMagnet "btih:&xt=urn:btih:c0ffee-1&xl=90071992547409930"
     = "C0FFEE"%string
  /\ getSizeFromMagnet "btih:&xt=urn:btih:c0ffee-1&xl=90071992547409930"
     = Fin 90071992547409936.
Proof.
  pose proof (matchGroup_spec isAlnum "btih:"
                "btih:&xt=urn:btih:c0ffee-1&xl=90071992547409930") as Hash.
  pose proof (matchGroup_spec isDigit "xl="
                "btih:&xt=urn:btih:c0ffee-1&xl=90071992547409930") as Size.
  destruct magnet_parser_contract as (_ & HashOk & SizeOk & _).
  split; [exact Hash|]. split.
  - exact (proj1 (HashOk _ _ Hash)).
  - exact (proj1 (SizeOk _ _ Size)).
Defined.

(** ** The Release Normalizer *)

Lemma push_loop_is_map {A B : Type} (f : A -> B) (l : list A) (acc : list B) :
  fold_left (fun torrents x => torrents ++ [f x]) l acc = acc ++ map f l.
Proof.
  revert acc. induction l as [|x l IH]; intros acc; simpl.
  - now rewrite app_nil_r.
  - rewrite IH, <- app_assoc. reflexivity.
Qed.

(** The normalizer never throws; it maps one function over the downloads,
    and that function fills the fields as listed. *)
Lemma apiReleaseToAnimeTorrents_run (rt : Runtime)
  (release : SubsPleaseRelease) (reads : nat) :
  exists f : SubsPleaseDownload -> AnimeTorrent,
    apiReleaseToAnimeTorrents rt release reads
    = (Ok (map f (downloads release)), snd (Spec.stampOf rt release reads))
    /\ forall d,
         resolution (f d) = (res d ++ "p")%string
         /\ magnetLink (f d) = magnet d
         /\ size (f d) = getSizeFromMagnet (magnet d)
         /\ infoHash (f d) = getHashFromMagnet (magnet d)
         /\ isBatch (f d) = false
         /\ date (f d) = fst (Spec.stampOf rt release reads)
         /\ episodeNumber (f d)
            = (if isNaN (parseInt (episode release)) then Fin (-1)
               else parseInt (episode release)).
Proof.
  unfold apiReleaseToAnimeTorrents, Spec.stampOf, bind, ret, newDateNow.
  destruct (newDate rt (release_date release)) as [t|]; cbn [fst snd];
    rewrite push_loop_is_map; cbn [app];
    (eexists; split; [reflexivity | intros d; cbn; repeat split; reflexivity]).
Qed.




(** ** The Result Set Builder *)

Lemma collectReleases_batch (rt : Runtime) (key : string)
  (release : SubsPleaseRelease) (rest : list (string * SubsPleaseRelease))
  (torrents : list AnimeTorrent) (reads : nat) :
  episode release = "Batch" ->
  collectReleases rt ((key, release) :: rest) torrents reads
  = collectReleases rt rest torrents reads.
Proof.
  intros E. cbn [collectReleases]. rewrite E. reflexivity.
Qed.

Lemma collectReleases_other (rt : Runtime) (key : string)
  (release : SubsPleaseRelease) (rest : list (string * SubsPleaseRelease))
  (torrents : list AnimeTorrent) (reads : nat) :
  episode release <> "Batch" ->
  collectReleases rt ((key, release) :: rest) torrents reads
  = bind (apiReleaseToAnimeTorrents rt release)
      (fun pushed => collectReleases rt rest (torrents ++ pushed)) reads.
Proof.
  intros N. cbn [collectReleases].
  destruct (String.eqb_spec (episode release) "Batch") as [E|_];
    [contradiction | reflexivity].
Qed.

Lemma collectReleases_app (rt : Runtime)
  (front back : list (string * SubsPleaseRelease))
  (torrents : list AnimeTorrent) (reads : nat) :
  collectReleases rt (front ++ back) torrents reads
  = bind (collectReleases rt front torrents)
      (fun collected => collectReleases rt back collected) reads.
Proof.
  revert torrents reads.
  induction front as [|[key release] front IH]; intros torrents reads.
  - reflexivity.
  - cbn [app collectReleases].
    destruct (negb (episode release =? "Batch")%string).
    + destruct (apiReleaseToAnimeTorrents_run rt release reads) as (f & E & _).
      unfold bind in *. rewrite E. apply IH.
    + apply IH.
Qed.

(** What holds of every entity the normalizer builds, holds of every
    entity the builder collects. *)
Lemma collectReleases_Forall (rt : Runtime) (P : AnimeTorrent -> Prop)
  (entries : list (string * SubsPleaseRelease)) :
  (forall release reads torrents reads',
      In release (map snd entries) ->
      apiReleaseToAnimeTorrents rt release reads = (Ok torrents, reads') ->
      Forall P torrents) ->
  forall torrents reads collected reads',
    Forall P torrents ->
    collectReleases rt entries torrents reads = (Ok collected, reads') ->
    Forall P collected.
Proof.
  induction entries as [|[key release] entries IH];
    intros Built torrents reads collected reads' Acc Run.
  - inversion Run. now subst.
  - cbn [collectReleases] in Run.
    assert (Rest : forall release reads torrents reads',
               In release (map snd entries) ->
               apiReleaseToAnimeTorrents rt release reads = (Ok torrents, reads') ->
               Forall P torrents)
      by (intros r n ts n' I; apply Built; right; exact I).
    destruct (negb (episode release =? "Batch")%string).
    + unfold bind in Run.
      destruct (apiReleaseToAnimeTorrents rt release reads)
        as [[pushed|e] reads1] eqn:Push; [|discriminate Run].
      apply (IH Rest _ _ _ _ (proj2 (Forall_app _ _ _)
                                (conj Acc (Built _ _ _ _ (or_introl eq_refl) Push)))
               Run).
    + exact (IH Rest _ _ _ _ Acc Run).
Qed.

(** What [fetchAndParseSearchResults] does once the transport has answered
    with a success status and an object body. *)
Lemma fetchAndParseSearchResults_ok (rt : Runtime) (query : string)
  (response : Response) (entries : list (string * SubsPleaseRelease))
  (reads : nat) :
  fetch rt (searchUrl query) = Ok response ->
  ok response = true ->
  json response = Ok (JsonObject entries) ->
  fetchAndParseSearchResults rt query reads = collectReleases rt entries [] reads.
Proof.
  intros F O J. unfold fetchAndParseSearchResults, bind, await.
  rewrite F, O. cbn. rewrite J. reflexivity.
Qed.


Lemma smartSearch_unfold (rt : Runtime) (opts : Smart.AnimeSmartSearchOptions) :
  Smart.batch opts = false ->
  smartSearch rt opts
  = bind (fetchAndParseSearchResults rt (effectiveQuery opts))
      (fun allTorrents =>
         ret (resolutionStep opts (episodeStep opts allTorrents))).
Proof.
  intros B. unfold smartSearch. rewrite B. reflexivity.
Qed.

(** C2. A payload entry whose episode label is ["Batch"] contributes no
    entity: the loop leaves the list and the clock as they were when it
    meets one, so for every query the list the builder returns is the one
    it returns for the payload without that entry; no caller's flag is
    consulted. *)
Theorem batch_entry_contributes_nothing (rt : Runtime) (key : string)
  (release : SubsPleaseRelease) :
  episode release = "Batch" ->
  (forall rest torrents reads,
      collectReleases rt ((key, release) :: rest) torrents reads
      = collectReleases rt rest torrents reads)
  /\ (forall front back torrents reads,
         collectReleases rt (front ++ (key, release) :: back) torrents reads
         = collectReleases rt (front ++ back) torrents reads)
  /\ (forall query response front back reads,
         fetch rt (searchUrl query) = Ok response ->
         ok response = true ->
         json response = Ok (JsonObject (front ++ (key, release) :: back)) ->
         fetchAndParseSearchResults rt query reads
         = collectReleases rt (front ++ back) [] reads)
  /\ (forall opts response front back reads,
         Smart.batch opts = false ->
         fetch rt (searchUrl (effectiveQuery opts)) = Ok response ->
         ok response = true ->
         json response = Ok (JsonObject (front ++ (key, release) :: back)) ->
         smartSearch rt opts reads
         = bind (collectReleases rt (front ++ back) [])
             (fun allTorrents =>
                ret (resolutionStep opts (episodeStep opts allTorrents)))
             reads).
Proof.
  intros E.
  assert (Mid : forall front back torrents reads,
             collectReleases rt (front ++ (key, release) :: back) torrents reads
             = collectReleases rt (front ++ back) torrents reads).
  { intros front back torrents reads.
    rewrite !collectReleases_app. unfold bind.
    destruct (collectReleases rt front torrents reads) as [[collected|e] reads'].
    - now apply collectReleases_batch.
    - reflexivity. }
  assert (Whole : forall query response front back reads,
             fetch rt (searchUrl query) = Ok response ->
             ok response = true ->
             json response = Ok (JsonObject (front ++ (key, release) :: back)) ->
             fetchAndParseSearchResults rt query reads
             = collectReleases rt (front ++ back) [] reads).
  { intros query response front back reads F O J.
    rewrite (fetchAndParseSearchResults_ok rt query response _ reads F O J).
    apply Mid. }
  repeat split.
  - intros. now apply collectReleases_batch.
  - exact Mid.
  - exact Whole.
  - intros opts response front back reads B F O J.
    rewrite smartSearch_unfold by exact B. unfold bind.
    now rewrite (Whole _ response front back reads F O J).
Qed.

Lemma batch_entry_contributes_nothing_witness :
  episode Samples.releaseBatch = "Batch"
  /\ fetchAndParseSearchResults (Samples.runtimeWith Samples.found) "x" 0%nat
     = collectReleases (Samples.runtimeWith Samples.found)
         ([("1", Samples.release3)] ++ []) [] 0%nat.
Proof.
  split; [reflexivity|].
  destruct (batch_entry_contributes_nothing
              (Samples.runtimeWith Samples.found) "2"
              Samples.releaseBatch eq_refl) as (_ & _ & Whole & _).
  apply (Whole "x" Samples.found [("1", Samples.release3)] [] 0%nat);
    reflexivity.
Defined.

(** C3. For a release that is not a batch, with [k] downloads, the
    normalizer returns exactly [k] entities, the [i]-th built from the
    [i]-th download (it carries that download's magnet URI) and labelled
    with that download's quality followed by ["p"]; the builder's loop
    pushes exactly these onto its list. *)
Theorem normalizer_one_entity_per_download (rt : Runtime)
  (release : SubsPleaseRelease) (reads : nat) :
  episode release <> "Batch" ->
  exists torrents reads',
    apiReleaseToAnimeTorrents rt release reads = (Ok torrents, reads')
    /\ List.length torrents = List.length (downloads release)
    /\ map resolution torrents
       = map (fun d => (res d ++ "p")%string) (downloads release)
    /\ map magnetLink torrents = map magnet (downloads release)
    /\ (forall i d, nth_error (downloads release) i = Some d ->
          exists t, nth_error torrents i = Some t
                    /\ resolution t = (res d ++ "p")%string
                    /\ magnetLink t = magnet d)
    /\ (forall key rest collected,
          collectReleases rt ((key, release) :: rest) collected reads
          = collectReleases rt rest (collected ++ torrents) reads').
Proof.
  intros NotBatch.
  destruct (apiReleaseToAnimeTorrents_run rt release reads) as (f & Run & Fields).
  exists (map f (downloads release)), (snd (Spec.stampOf rt release reads)).
  split; [exact Run|].
  split; [apply length_map|].
  split; [rewrite map_map; apply map_ext; intros d; apply Fields|].
  split; [rewrite map_map; apply map_ext; intros d; apply Fields|].
  split.
  - intros i d Hi. exists (f d). split.
    + rewrite nth_error_map, Hi. reflexivity.
    + split; apply Fields.
  - intros key rest collected.
    rewrite collectReleases_other by exact NotBatch.
    unfold bind. rewrite Run. reflexivity.
Qed.

Lemma normalizer_one_entity_per_download_witness :
  exists torrents reads',
    apiReleaseToAnimeTorrents (Samples.runtimeWith Samples.found)
      Samples.release3 0%nat = (Ok torrents, reads')
    /\ List.length torrents = 2%nat
    /\ map resolution torrents = ["720p"; "1080p"].
Proof.
  destruct (normalizer_one_entity_per_download
              (Samples.runtimeWith Samples.found) Samples.release3 0%nat)
    as (torrents & reads' & Run & Len & Labels & _).
  - discriminate.
  - exists torrents, reads'. repeat split; assumption.
Defined.

(** C8. While the clock gives time values, every entity the normalizer
    builds carries a timestamp in the ISO-8601 date-time format, which
    reads back as the very instant it stands for: the time value the
    release date parses to when the parse gives one, and the clock's reading
    otherwise.  All the entities a fetch returns carry such a timestamp,
    one that reads back as a time value. *)
Theorem timestamp_is_valid_iso (rt : Runtime) :
  (forall reads, isTimeValue (Date_now rt reads) = true) ->
  (forall release reads,
      exists torrents reads',
        apiReleaseToAnimeTorrents rt release reads = (Ok torrents, reads')
        /\ List.length torrents = List.length (downloads release)
        /\ forall t, In t torrents ->
             isISODateTime (date t) = true
             /\ date t
                = match TimeClip (Date_parse rt (release_date release)) with
                  | Some parsed => toISOString parsed
                  | None => toISOString (Date_now rt reads)
                  end
             /\ parseISODateTime (date t)
                = match TimeClip (Date_parse rt (release_date release)) with
                  | Some parsed => Some parsed
                  | None => Some (Date_now rt reads)
                  end)
  /\ (forall query reads torrents reads',
         fetchAndParseSearchResults rt query reads = (Ok torrents, reads') ->
         forall t, In t torrents ->
           isISODateTime (date t) = true
           /\ exists instant,
                isTimeValue instant = true
                /\ parseISODateTime (date t) = Some instant).
Proof.
  intros Clock.
  assert (Built : forall release reads,
             exists torrents reads',
               apiReleaseToAnimeTorrents rt release reads = (Ok torrents, reads')
               /\ List.length torrents = List.length (downloads release)
               /\ forall t, In t torrents ->
                    isISODateTime (date t) = true
                    /\ date t
                       = match TimeClip (Date_parse rt (release_date release)) with
                         | Some parsed => toISOString parsed
                         | None => toISOString (Date_now rt reads)
                         end
                    /\ parseISODateTime (date t)
                       = match TimeClip (Date_parse rt (release_date release)) with
                         | Some parsed => Some parsed
                         | None => Some (Date_now rt reads)
                         end).
  { intros release reads.
    destruct (apiReleaseToAnimeTorrents_run rt release reads) as (f & Run & Fields).
    exists (map f (downloads release)), (snd (Spec.stampOf rt release reads)).
    split; [exact Run|]. split; [apply length_map|].
    intros t I. apply in_map_iff in I as (d & <- & _).
    destruct (Fields d) as (_ & _ & _ & _ & _ & Stamp & _). rewrite Stamp.
    unfold Spec.stampOf, newDate.
    destruct (TimeClip (Date_parse rt (release_date release))) as [parsed|] eqn:Clip;
      cbn [fst].
    - assert (TV : isTimeValue parsed = true).
      { unfold TimeClip in Clip.
        destruct (Date_parse rt (release_date release)) as [tv|]; [|discriminate].
        destruct (isTimeValue tv) eqn:TV; [|discriminate].
        now inversion Clip; subst. }
      split; [now apply toISOString_valid|].
      split; [reflexivity | now apply toISOString_reads_back].
    - split; [apply toISOString_valid, Clock|].
      split; [reflexivity | apply toISOString_reads_back, Clock]. }
  split; [exact Built|].
  intros query reads torrents reads' Run.
  unfold fetchAndParseSearchResults, bind, await in Run.
  destruct (fetch rt (searchUrl query)) as [response|e]; [|discriminate Run].
  destruct (ok response); cbn [negb] in Run; [|discriminate Run].
  destruct (json response) as [[entries|]|e]; try discriminate Run.
  - apply Forall_forall.
    apply (collectReleases_Forall rt
             (fun t => isISODateTime (date t) = true
                       /\ exists instant,
                            isTimeValue instant = true
                            /\ parseISODateTime (date t) = Some instant)
             entries) with (torrents := []) (reads := reads) (reads' := reads');
      [|constructor|exact Run].
    intros release n ts n' _ Push. apply Forall_forall. intros t I.
    destruct (Built release n) as (ts' & n'' & Push' & _ & Valid).
    rewrite Push in Push'. inversion Push'; subst.
    destruct (Valid t I) as (Format & _ & Back). split; [exact Format|].
    destruct (TimeClip (Date_parse rt (release_date release))) as [parsed|] eqn:Clip.
    + exists parsed. split; [|exact Back].
      unfold TimeClip in Clip.
      destruct (Date_parse rt (release_date release)) as [tv|]; [|discriminate].
      destruct (isTimeValue tv) eqn:TV; [|discriminate].
      now inversion Clip; subst.
    + exists (Date_now rt n). split; [apply Clock | exact Back].
  - inversion Run; subst. intros t [].
Qed.

(** A release whose date parses, stamped with that date, and one whose
    date does not, stamped with the clock's eighth reading. *)
Lemma timestamp_is_valid_iso_witness :
  (forall reads,
      isTimeValue (Date_now (Samples.runtimeWith Samples.found) reads) = true)
  /\ (exists torrents reads',
         apiReleaseToAnimeTorrents (Samples.runtimeWith Samples.found)
           Samples.release3 7%nat = (Ok torrents, reads')
         /\ List.length torrents = 2%nat
         /\ forall t, In t torrents ->
              isISODateTime (date t) = true
              /\ date t = "2024-01-01T00:00:00.000Z"%string
              /\ parseISODateTime (date t) = Some 1704067200000)
  /\ (exists torrents reads',
         apiReleaseToAnimeTorrents (Samples.runtimeWith Samples.found)
           Samples.releaseMinus5 7%nat = (Ok torrents, reads')
         /\ List.length torrents = 1%nat
         /\ forall t, In t torrents ->
              isISODateTime (date t) = true
              /\ date t = "2027-01-15T08:00:00.007Z"%string
              /\ parseISODateTime (date t) = Some 1800000000007).
Proof.
  assert (Clock : forall reads,
             isTimeValue (Date_now (Samples.runtimeWith Samples.found) reads) = true).
  { intros reads. unfold isTimeValue, Samples.runtimeWith, Date_now.
    apply Z.leb_le. lia. }
  split; [exact Clock|]. split.
  - destruct (proj1 (timestamp_is_valid_iso _ Clock) Samples.release3 7%nat)
      as (torrents & reads' & Run & Count & Valid).
    exists torrents, reads'. split; [exact Run|]. split; [exact Count|].
    exact Valid.
  - destruct (proj1 (timestamp_is_valid_iso _ Clock) Samples.releaseMinus5 7%nat)
      as (torrents & reads' & Run & Count & Valid).
    exists torrents, reads'. split; [exact Run|]. split; [exact Count|].
    exact Valid.
Defined.



(** ** The Smart Filter *)

(** C5. With the batch flag set, [smartSearch] returns the empty list,
    whatever the media, query, episode number, offset and resolution are;
    it neither fetches nor reads the clock. *)
Theorem smartSearch_batch_is_empty (rt : Runtime) (media : Media)
  (query : string) (episodeNumber : number) (resolution : string)
  (reads : nat) :
  smartSearch rt
    {| Smart.media := media; Smart.query := query; Smart.batch := true;
       Smart.episodeNumber := episodeNumber; Smart.resolution := resolution |}
    reads
  = (Ok [], reads).
Proof. reflexivity. Qed.



Lemma resolutionStep_no_target (opts : Smart.AnimeSmartSearchOptions)
  (filtered : list AnimeTorrent) :
  Smart.resolution opts = "" -> resolutionStep opts filtered = filtered.
Proof. intros E. unfold resolutionStep. rewrite E. reflexivity. Qed.

Lemma resolutionStep_unparsable (opts : Smart.AnimeSmartSearchOptions)
  (filtered : list AnimeTorrent) :
  parseInt (replace "p" "" (Smart.resolution opts)) = NaN ->
  resolutionStep opts filtered = filtered.
Proof.
  intros E. unfold resolutionStep. rewrite E.
  now destruct (negb (Smart.resolution opts =? "")%string).
Qed.

Lemma resolutionStep_parsable (opts : Smart.AnimeSmartSearchOptions)
  (filtered : list AnimeTorrent) :
  Smart.resolution opts <> "" ->
  parseInt (replace "p" "" (Smart.resolution opts)) <> NaN ->
  resolutionStep opts filtered
  = filter (fun t =>
              strict_eq (parseInt (replace "p" "" (resolution t)))
                (parseInt (replace "p" "" (Smart.resolution opts))))
      filtered.
Proof.
  intros NonEmpty Parsed. unfold resolutionStep.
  destruct (String.eqb_spec (Smart.resolution opts) "") as [E|_];
    [contradiction|].
  destruct (parseInt (replace "p" "" (Smart.resolution opts)));
    [contradiction | reflexivity | reflexivity].
Qed.

(** Removing the first [p] of a label whose only [p] is its last character
    is stripping the trailing unit. *)
Lemma replace_first_p_strips_unit (body : string) :
  Spec.occurs "p" body = false ->
  replace "p" "" (body ++ "p") = body
  /\ Spec.stripTrailingUnit (body ++ "p") = body.
Proof.
  induction body as [|c body IH]; intros NoP.
  - split; reflexivity.
  - cbn [Spec.occurs] in NoP. apply orb_false_iff in NoP as [Cp NoP].
    destruct (IH NoP) as [IHr IHs]. split.
    + cbn [String.append replace String.prefix].
      destruct (Ascii.ascii_dec "p" c) as [E|_].
      * subst c. discriminate Cp.
      * now rewrite IHr.
    + cbn [String.append Spec.stripTrailingUnit].
      destruct (body ++ "p")%string eqn:Tail.
      * destruct body; discriminate Tail.
      * now rewrite IHs.
Qed.

(** C1, as stated, fails.  The target ["abc"] is not empty, yet the step
    keeps both an entity whose parsed resolution ([720]) is not equal to
    the parsed target ([NaN]) and an entity whose own resolution does not
    parse. *)
Lemma resolution_filter_unparsable_target_keeps_all :
  let opts := Samples.intent (Fin 0) (Fin 0) "abc" in
  let hd := Samples.torrentWith "720p" (Fin 1) in
  let odd := Samples.torrentWith "HDp" (Fin 1) in
  Smart.resolution opts <> ""
  /\ resolutionStep opts [hd; odd] = [hd; odd]
  /\ strict_eq (parseInt (replace "p" "" (resolution hd)))
       (parseInt (replace "p" "" (Smart.resolution opts))) = false
  /\ strict_eq (parseInt (Spec.stripTrailingUnit (resolution hd)))
       (parseInt (Spec.stripTrailingUnit (Smart.resolution opts))) = false
  /\ parseInt (replace "p" "" (resolution odd)) = NaN
  /\ parseInt (Spec.stripTrailingUnit (resolution odd)) = NaN.
Proof.
  cbv zeta. repeat split; try reflexivity. discriminate.
Qed.

(** C1, amended.  An empty target resolution imposes no constraint, and
    neither does one whose parse fails.  For a target that parses, the
    step is a filter keeping, in their order, exactly the entities whose
    resolution label parses to the same Number as the target; the labels
    need not be equal as strings, and an entity whose label does not parse
    is dropped.  A label is parsed by [parseInt] (radix 10) after its
    first [p] is removed, which for a label whose only [p] is the last
    character strips the trailing unit. *)
Theorem resolution_step_keeps_exactly (opts : Smart.AnimeSmartSearchOptions)
  (filtered : list AnimeTorrent) :
  let parsed label := parseInt (replace "p" "" label) in
  let targetRes := parsed (Smart.resolution opts) in
  (Smart.resolution opts = "" -> resolutionStep opts filtered = filtered)
  /\ (Smart.resolution opts <> "" -> targetRes = NaN ->
      resolutionStep opts filtered = filtered)
  /\ (Smart.resolution opts <> "" -> targetRes <> NaN ->
      exists keep : AnimeTorrent -> bool,
        resolutionStep opts filtered = filter keep filtered
        /\ (forall t, keep t = true <-> parsed (resolution t) = targetRes)
        /\ (forall t, parsed (resolution t) = NaN -> keep t = false)
        /\ (forall t, In t (resolutionStep opts filtered)
                      <-> In t filtered /\ parsed (resolution t) = targetRes))
  /\ (forall body, Spec.occurs "p" body = false ->
      parsed (body ++ "p")%string
      = parseInt (Spec.stripTrailingUnit (body ++ "p")%string)).
Proof.
  intros parsed targetRes. split; [|split; [|split]].
  - apply resolutionStep_no_target.
  - intros _. apply resolutionStep_unparsable.
  - intros NonEmpty Parsed.
    set (keep := fun t : AnimeTorrent =>
                   strict_eq (parsed (resolution t)) targetRes).
    assert (Keep : forall t, keep t = true <-> parsed (resolution t) = targetRes).
    { intros t. unfold keep. rewrite strict_eq_true_iff. split.
      - now intros [E _].
      - intros E. split; [exact E | congruence]. }
    assert (Step : resolutionStep opts filtered = filter keep filtered)
      by (now apply resolutionStep_parsable).
    exists keep. split; [exact Step|]. split; [exact Keep|]. split.
    + intros t E. unfold keep. rewrite E. reflexivity.
    + intros t. rewrite Step, filter_In, Keep. tauto.
  - intros body NoP. unfold parsed.
    destruct (replace_first_p_strips_unit body NoP) as [-> ->]. reflexivity.
Qed.

Lemma resolution_step_keeps_exactly_witness :
  let label s := Samples.torrentWith s (Fin 1) in
  let opts := Samples.intent (Fin 0) (Fin 0) "1080p" in
  Smart.resolution opts <> ""
  /\ parseInt (replace "p" "" (Smart.resolution opts)) <> NaN
  /\ In (label "1080p")
       (resolutionStep opts [label "1080p"; label "720p"; label " 01080p"; label "HDp"])
  /\ In (label " 01080p")
       (resolutionStep opts [label "1080p"; label "720p"; label " 01080p"; label "HDp"])
  /\ ~ In (label "720p")
       (resolutionStep opts [label "1080p"; label "720p"; label " 01080p"; label "HDp"])
  /\ ~ In (label "HDp")
       (resolutionStep opts [label "1080p"; label "720p"; label " 01080p"; label "HDp"])
  /\ resolutionStep (Samples.intent (Fin 0) (Fin 0) "") [label "720p"]
     = [label "720p"].
Proof.
  intros label opts.
  assert (NonEmpty : Smart.resolution opts <> "") by discriminate.
  assert (Parsed : parseInt (replace "p" "" (Smart.resolution opts)) <> NaN)
    by discriminate.
  destruct (resolution_step_keeps_exactly opts
              [label "1080p"; label "720p"; label " 01080p"; label "HDp"])
    as (_ & _ & Parsable & _).
  destruct (Parsable NonEmpty Parsed) as (keep & _ & _ & _ & Kept).
  destruct (resolution_step_keeps_exactly
              (Samples.intent (Fin 0) (Fin 0) "") [label "720p"])
    as (Unconstrained & _).
  split; [exact NonEmpty|]. split; [exact Parsed|].
  split; [apply Kept; split; [simpl; auto | reflexivity]|].
  split; [apply Kept; split; [simpl; auto | reflexivity]|].
  split; [intros K; apply Kept in K; destruct K as [_ E];
          vm_compute in E; discriminate|].
  split; [intros K; apply Kept in K; destruct K as [_ E];
          vm_compute in E; discriminate|].
  exact (Unconstrained eq_refl).
Defined.

(** C10. A target resolution that is not empty but does not parse switches
    the resolution step off: the step returns its input unchanged, so
    [smartSearch] returns what the episode step left, entities of every
    resolution among them. *)
Theorem unparsable_target_skips_resolution_filter (rt : Runtime)
  (opts : Smart.AnimeSmartSearchOptions) :
  Smart.resolution opts <> "" ->
  parseInt (replace "p" "" (Smart.resolution opts)) = NaN ->
  (forall filtered, resolutionStep opts filtered = filtered)
  /\ (Smart.batch opts = false ->
      forall reads,
        smartSearch rt opts reads
        = bind (fetchAndParseSearchResults rt (effectiveQuery opts))
            (fun allTorrents => ret (episodeStep opts allTorrents)) reads).
Proof.
  intros _ Unparsed.
  assert (Skip : forall filtered, resolutionStep opts filtered = filtered)
    by (intros filtered; now apply resolutionStep_unparsable).
  split; [exact Skip|].
  intros B reads. rewrite smartSearch_unfold by exact B. unfold bind.
  destruct (fetchAndParseSearchResults rt (effectiveQuery opts) reads)
    as [[allTorrents|e] reads']; [|reflexivity].
  unfold ret. now rewrite Skip.
Qed.

Lemma unparsable_target_skips_resolution_filter_witness :
  let opts := Samples.intent (Fin 0) (Fin 0) "best" in
  let all := [Samples.torrentWith "1080p" (Fin 1);
              Samples.torrentWith "720p" (Fin 1);
              Samples.torrentWith "HDp" (Fin 2)] in
  Smart.resolution opts <> ""
  /\ parseInt (replace "p" "" (Smart.resolution opts)) = NaN
  /\ resolutionStep opts all = all.
Proof.
  intros opts all.
  assert (NonEmpty : Smart.resolution opts <> "") by discriminate.
  assert (Unparsed : parseInt (replace "p" "" (Smart.resolution opts)) = NaN)
    by reflexivity.
  split; [exact NonEmpty|]. split; [exact Unparsed|].
  exact (proj1 (unparsable_target_skips_resolution_filter
                  (Samples.runtimeWith Samples.found) opts NonEmpty Unparsed)
           all).
Defined.

(* ===================================================================== *)
(** * Further properties of the provider *)
(* ===================================================================== *)

(** ** Lists and the effect of a call *)

Lemma filter_all {A : Type} (l : list A) : filter (fun _ => true) l = l.
Proof. induction l as [|x l IH]; simpl; congruence. Qed.

Lemma filter_fusion {A : Type} (p q : A -> bool) (l : list A) :
  filter p (filter q l) = filter (fun x => q x && p x) l.
Proof.
  induction l as [|x l IH]; simpl; [reflexivity|].
  destruct (q x); simpl; [destruct (p x)|]; now rewrite IH.
Qed.

Lemma filter_shorter {A : Type} (p : A -> bool) (l : list A) :
  (List.length (filter p l) <= List.length l)%nat.
Proof.
  induction l as [|x l IH]; simpl; [apply Nat.le_refl|].
  destruct (p x); simpl; lia.
Qed.


Lemma bind_ret_r {A : Type} (m : Eff A) (reads : nat) :
  bind m (fun a => ret a) reads = m reads.
Proof. unfold bind, ret. now destruct (m reads) as [[a|e] reads']. Qed.

(** ** Every field of an entity *)

(** The normalizer's run, with all seventeen fields. *)
Lemma apiReleaseToAnimeTorrents_fields (rt : Runtime)
  (release : SubsPleaseRelease) (reads : nat) :
  exists f : SubsPleaseDownload -> AnimeTorrent,
    apiReleaseToAnimeTorrents rt release reads
    = (Ok (map f (downloads release)), snd (Spec.stampOf rt release reads))
    /\ forall d,
         name (f d)
         = ("[SubsPlease] " ++ show release ++ " - "
            ++ padStart (toString (parseInt (episode release))) 2 "0"
            ++ " (" ++ (res d ++ "p") ++ ") ["
            ++ getHashFromMagnet (magnet d) ++ "].mkv")%string
         /\ date (f d) = fst (Spec.stampOf rt release reads)
         /\ size (f d) = getSizeFromMagnet (magnet d)
         /\ formattedSize (f d)
            = (if gt (getSizeFromMagnet (magnet d)) (Fin 0)
               then megabytesToFixed2 (getSizeFromMagnet (magnet d)) ++ " MB"
               else "N/A")%string
         /\ seeders (f d) = Fin (-1)
         /\ leechers (f d) = Fin (-1)
         /\ downloadCount (f d) = Fin 0
         /\ link (f d)
            = ("https://subsplease.org/shows/" ++ page release ++ "/")%string
         /\ downloadUrl (f d) = ""%string
         /\ magnetLink (f d) = magnet d
         /\ infoHash (f d) = getHashFromMagnet (magnet d)
         /\ resolution (f d) = (res d ++ "p")%string
         /\ isBatch (f d) = false
         /\ episodeNumber (f d)
            = (if isNaN (parseInt (episode release)) then Fin (-1)
               else parseInt (episode release))
         /\ releaseGroup (f d) = "SubsPlease"%string
         /\ isBestRelease (f d) = false
         /\ confirmed (f d) = true.
Proof.
  unfold apiReleaseToAnimeTorrents, Spec.stampOf, bind, ret, newDateNow.
  destruct (newDate rt (release_date release)) as [t|]; cbn [fst snd];
    rewrite push_loop_is_map; cbn [app];
    (eexists; split; [reflexivity | intros d; cbn; repeat split; reflexivity]).
Qed.

(** What holds of every entity the normalizer builds, holds of every
    entity a fetch returns ... *)
Lemma fetched_Forall (rt : Runtime) (P : AnimeTorrent -> Prop) :
  (forall release reads torrents reads',
      apiReleaseToAnimeTorrents rt release reads = (Ok torrents, reads') ->
      Forall P torrents) ->
  forall query reads torrents reads',
    fetchAndParseSearchResults rt query reads = (Ok torrents, reads') ->
    Forall P torrents.
Proof.
  intros Built query reads torrents reads' Run.
  unfold fetchAndParseSearchResults, bind, await in Run.
  destruct (fetch rt (searchUrl query)) as [response|e]; [|discriminate Run].
  destruct (ok response); cbn [negb] in Run; [|discriminate Run].
  destruct (json response) as [[entries|]|e]; try discriminate Run.
  - apply (collectReleases_Forall rt P entries) with (torrents := [])
      (reads := reads) (reads' := reads'); [|constructor|exact Run].
    intros release n ts n' _. apply Built.
  - inversion Run; subst. constructor.
Qed.

(** ... and of every entity any of the three operations returns. *)
Lemma returned_Forall (rt : Runtime) (P : AnimeTorrent -> Prop) :
  (forall release reads torrents reads',
      apiReleaseToAnimeTorrents rt release reads = (Ok torrents, reads') ->
      Forall P torrents) ->
  forall reads torrents reads',
    (getLatest rt reads = (Ok torrents, reads')
     \/ (exists opts, search rt opts reads = (Ok torrents, reads'))
     \/ (exists opts, smartSearch rt opts reads = (Ok torrents, reads'))) ->
    Forall P torrents.
Proof.
  intros Built reads torrents reads' [Run|[[opts Run]|[opts Run]]].
  - exact (fetched_Forall rt P Built _ _ _ _ Run).
  - exact (fetched_Forall rt P Built _ _ _ _ Run).
  - unfold smartSearch in Run. destruct (Smart.batch opts).
    + inversion Run; subst. constructor.
    + unfold bind in Run.
      destruct (fetchAndParseSearchResults rt (effectiveQuery opts) reads)
        as [[all|e] reads1] eqn:Fetch; [|discriminate Run].
      inversion Run; subst. apply Forall_forall. intros t Kept.
      pose proof (fetched_Forall rt P Built _ _ _ _ Fetch) as All.
      rewrite Forall_forall in All. apply All.
      unfold resolutionStep, episodeStep in Kept.
      repeat match type of Kept with
             | context [if ?b then _ else _] => destruct b
             end;
        repeat (apply filter_In in Kept; destruct Kept as [Kept _]);
        exact Kept.
Qed.

Lemma toDouble_of_nonneg (v : Z) :
  0 <= v -> (exists z, toDouble v = Fin z /\ 0 <= z) \/ toDouble v = Inf false.
Proof.
  intros P. destruct (toDouble v) as [|z|s] eqn:E.
  - unfold toDouble in E. destruct (Z.abs v <? 2 ^ 53); [discriminate E|].
    cbv zeta in E.
    match type of E with (if ?b then _ else _) = _ => destruct b end;
      discriminate E.
  - left. exists z. split; [reflexivity | exact (toDouble_nonneg v z P E)].
  - right. unfold toDouble in E. destruct (Z.abs v <? 2 ^ 53); [discriminate E|].
    cbv zeta in E.
    match type of E with (if ?b then _ else _) = _ => destruct b end;
      [|discriminate E].
    inversion E. f_equal. apply Z.ltb_ge. exact P.
Qed.



Lemma orElse_empty (a : string) : orElse a "" = a.
Proof.
  unfold orElse. destruct (String.eqb_spec a ""); [now subst | reflexivity].
Qed.

(** X1. Every entity that [getLatest], [search] or [smartSearch] returns
    carries the constants of this provider: seeders and leechers [-1], no
    downloads counted, no download URL, not a batch, release group
    ["SubsPlease"], not a best release, confirmed. *)
Theorem returned_entities_carry_the_constants (rt : Runtime) (reads : nat)
  (torrents : list AnimeTorrent) (reads' : nat) :
  (getLatest rt reads = (Ok torrents, reads')
   \/ (exists opts, search rt opts reads = (Ok torrents, reads'))
   \/ (exists opts, smartSearch rt opts reads = (Ok torrents, reads'))) ->
  forall t, In t torrents -> Derived.constantFields t.
Proof.
  intros Run. apply Forall_forall.
  apply (returned_Forall rt Derived.constantFields) with (reads := reads)
    (reads' := reads'); [|exact Run].
  intros release n ts n' Built.
  destruct (apiReleaseToAnimeTorrents_fields rt release n) as (f & Run' & Fields).
  rewrite Run' in Built. inversion Built; subst ts.
  apply Forall_forall. intros t I. apply in_map_iff in I as (d & <- & _).
  unfold Derived.constantFields. repeat split; apply Fields.
Qed.

Lemma returned_entities_carry_the_constants_witness :
  exists torrents reads',
    getLatest (Samples.runtimeWith Samples.found) 0%nat = (Ok torrents, reads')
    /\ List.length torrents = 2%nat
    /\ forall t, In t torrents -> Derived.constantFields t.
Proof.
  eexists. eexists. split; [reflexivity|]. split; [reflexivity|].
  exact (returned_entities_carry_the_constants
           (Samples.runtimeWith Samples.found) 0%nat _ _ (or_introl eq_refl)).
Defined.

(** X2. In every entity an operation returns, the info-hash and the size
    are those the magnet parser reads from the magnet URI the entity
    carries, and [getTorrentMagnetLink] gives back that URI. *)
Theorem returned_entities_agree_with_their_magnet (rt : Runtime) (reads : nat)
  (torrents : list AnimeTorrent) (reads' : nat) :
  (getLatest rt reads = (Ok torrents, reads')
   \/ (exists opts, search rt opts reads = (Ok torrents, reads'))
   \/ (exists opts, smartSearch rt opts reads = (Ok torrents, reads'))) ->
  forall t, In t torrents -> Derived.magnetFields t.
Proof.
  intros Run. apply Forall_forall.
  apply (returned_Forall rt Derived.magnetFields) with (reads := reads)
    (reads' := reads'); [|exact Run].
  intros release n ts n' Built.
  destruct (apiReleaseToAnimeTorrents_fields rt release n) as (f & Run' & Fields).
  rewrite Run' in Built. inversion Built; subst ts.
  apply Forall_forall. intros t I. apply in_map_iff in I as (d & <- & _).
  destruct (Fields d) as (_ & _ & Size & _ & _ & _ & _ & _ & _ & Link & Hash & _).
  unfold Derived.magnetFields, getTorrentMagnetLink.
  rewrite Link, Hash, Size, orElse_empty. repeat split.
Qed.

Lemma returned_entities_agree_with_their_magnet_witness :
  exists torrents reads',
    smartSearch (Samples.runtimeWith Samples.found)
      (Samples.intent (Fin 3) (Fin 0) "720p") 0%nat = (Ok torrents, reads')
    /\ List.length torrents = 1%nat
    /\ forall t, In t torrents ->
         infoHash t = "HASH1"%string /\ Derived.magnetFields t.
Proof.
  eexists. eexists. split; [reflexivity|]. split; [reflexivity|].
  intros t I. split.
  - destruct I as [<-|[]]. reflexivity.
  - exact (returned_entities_agree_with_their_magnet
             (Samples.runtimeWith Samples.found) 0%nat _ _
             (or_intror (or_intror
                (ex_intro _ (Samples.intent (Fin 3) (Fin 0) "720p") eq_refl)))
             t I).
Defined.



(** ** The two filter steps together *)

Lemma episodeStep_filter (opts : Smart.AnimeSmartSearchOptions)
  (l : list AnimeTorrent) :
  episodeStep opts l = filter (Derived.episodeWanted opts) l.
Proof.
  unfold episodeStep, Derived.episodeWanted.
  destruct (gt (Smart.episodeNumber opts) (Fin 0)); cbn [negb orb].
  - reflexivity.
  - symmetry. apply filter_all.
Qed.

Lemma resolutionStep_filter (opts : Smart.AnimeSmartSearchOptions)
  (l : list AnimeTorrent) :
  resolutionStep opts l = filter (Derived.resolutionWanted opts) l.
Proof.
  unfold resolutionStep, Derived.resolutionWanted.
  destruct (Smart.resolution opts =? "")%string; cbn [negb orb].
  - symmetry. apply filter_all.
  - destruct (isNaN (parseInt (replace "p" "" (Smart.resolution opts))));
      cbn [negb orb].
    + symmetry. apply filter_all.
    + reflexivity.
Qed.

Lemma smartSearch_is_one_filter_aux (rt : Runtime)
  (opts : Smart.AnimeSmartSearchOptions) (reads : nat)
  (all : list AnimeTorrent) (reads' : nat) :
  Smart.batch opts = false ->
  fetchAndParseSearchResults rt (effectiveQuery opts) reads = (Ok all, reads') ->
  smartSearch rt opts reads
  = (Ok (filter (fun t => Derived.episodeWanted opts t
                          && Derived.resolutionWanted opts t) all), reads')
  /\ (forall t,
        In t (filter (fun t => Derived.episodeWanted opts t
                               && Derived.resolutionWanted opts t) all)
        <-> In t all /\ Derived.episodeWanted opts t = true
            /\ Derived.resolutionWanted opts t = true).
Proof.
  intros B Fetch. split.
  - rewrite smartSearch_unfold by exact B. unfold bind. rewrite Fetch.
    unfold ret.
    now rewrite resolutionStep_filter, episodeStep_filter, filter_fusion.
  - intros t. rewrite filter_In, andb_true_iff. tauto.
Qed.

(** X4. Past the batch test, [smartSearch] returns the fetched list
    filtered once by the conjunction of the episode constraint and the
    resolution constraint: the two steps intersect, keep the order of the
    fetched list, add nothing and leave the clock as the fetch left it, and
    the order of the two steps does not matter. *)
Theorem smartSearch_is_one_filter (rt : Runtime)
  (opts : Smart.AnimeSmartSearchOptions) (reads : nat)
  (all : list AnimeTorrent) (reads' : nat) :
  Smart.batch opts = false ->
  fetchAndParseSearchResults rt (effectiveQuery opts) reads = (Ok all, reads') ->
  let kept :=
    filter (fun t => Derived.episodeWanted opts t
                     && Derived.resolutionWanted opts t) all in
  smartSearch rt opts reads = (Ok kept, reads')
  /\ (forall t, In t kept
                <-> In t all /\ Derived.episodeWanted opts t = true
                    /\ Derived.resolutionWanted opts t = true)
  /\ (List.length kept <= List.length all)%nat
  /\ resolutionStep opts (episodeStep opts all)
     = episodeStep opts (resolutionStep opts all).
Proof.
  intros B Fetch kept.
  assert (Fused : resolutionStep opts (episodeStep opts all) = kept)
    by (rewrite resolutionStep_filter, episodeStep_filter; apply filter_fusion).
  destruct (smartSearch_is_one_filter_aux rt opts reads all reads' B Fetch)
    as (Run & Kept).
  split; [exact Run|]. split; [exact Kept|]. split.
  - apply filter_shorter.
  - rewrite Fused, resolutionStep_filter, episodeStep_filter, filter_fusion.
    unfold kept. apply filter_ext. intros t. apply andb_comm.
Qed.

Lemma smartSearch_is_one_filter_witness :
  exists all kept reads',
    fetchAndParseSearchResults (Samples.runtimeWith Samples.found)
      (effectiveQuery (Samples.intent (Fin 3) (Fin 0) "1080p")) 0%nat
    = (Ok all, reads')
    /\ smartSearch (Samples.runtimeWith Samples.found)
         (Samples.intent (Fin 3) (Fin 0) "1080p") 0%nat = (Ok kept, reads')
    /\ map resolution all = ["720p"; "1080p"]%string
    /\ map resolution kept = ["1080p"]%string.
Proof.
  eexists. eexists. eexists. split; [reflexivity|]. split.
  - exact (proj1 (smartSearch_is_one_filter
                    (Samples.runtimeWith Samples.found)
                    (Samples.intent (Fin 3) (Fin 0) "1080p") 0%nat _ _
                    eq_refl eq_refl)).
  - split; reflexivity.
Defined.

(** X5. An intent that is no batch, whose episode number is not above 0
    (0, a negative number or NaN) and whose resolution is empty or does not
    parse, makes [smartSearch] a plain [search] for the effective query:
    the explicit query when there is one, and [getLatest] when the query
    and both titles are empty. *)
Theorem unconstrained_smartSearch_is_search (rt : Runtime)
  (opts : Smart.AnimeSmartSearchOptions) (reads : nat) :
  Smart.batch opts = false ->
  gt (Smart.episodeNumber opts) (Fin 0) = false ->
  parseInt (replace "p" "" (Smart.resolution opts)) = NaN ->
  smartSearch rt opts reads
  = search rt {| Search.query := effectiveQuery opts |} reads
  /\ (Smart.query opts <> ""%string ->
      smartSearch rt opts reads
      = search rt {| Search.query := Smart.query opts |} reads)
  /\ (Smart.query opts = ""%string ->
      romajiTitle (Smart.media opts) = ""%string ->
      englishTitle (Smart.media opts) = ""%string ->
      smartSearch rt opts reads = getLatest rt reads).
Proof.
  intros B NoEpisode NoResolution.
  assert (Plain : smartSearch rt opts reads
                  = fetchAndParseSearchResults rt (effectiveQuery opts) reads).
  { rewrite smartSearch_unfold by exact B.
    rewrite <- (bind_ret_r (fetchAndParseSearchResults rt (effectiveQuery opts))).
    unfold bind.
    destruct (fetchAndParseSearchResults rt (effectiveQuery opts) reads)
      as [[all|e] reads']; [|reflexivity].
    unfold ret. rewrite resolutionStep_unparsable by exact NoResolution.
    unfold episodeStep. now rewrite NoEpisode. }
  split; [exact Plain|]. split.
  - intros Q. rewrite Plain. unfold search, effectiveQuery, orElse. cbn.
    destruct (String.eqb_spec (Smart.query opts) ""); [contradiction|reflexivity].
  - intros Q R E. rewrite Plain. unfold getLatest, effectiveQuery, orElse.
    now rewrite Q, R, E.
Qed.

Lemma unconstrained_smartSearch_is_search_witness :
  smartSearch (Samples.runtimeWith Samples.found)
    (Samples.intent (Fin 0) (Fin 12) "best") 0%nat
  = search (Samples.runtimeWith Samples.found)
      {| Search.query := "Sousou no Frieren" |} 0%nat.
Proof.
  exact (proj1 (unconstrained_smartSearch_is_search
                  (Samples.runtimeWith Samples.found)
                  (Samples.intent (Fin 0) (Fin 12) "best") 0%nat
                  eq_refl eq_refl eq_refl)).
Defined.

(** X6. A smart search for an entity's own episode number and resolution
    label finds it: every entity of the fetched list is in the list
    [smartSearch] returns for an intent carrying that entity's episode
    number and resolution, whatever the offset. *)
Theorem smartSearch_finds_an_entity_by_its_own_fields (rt : Runtime)
  (opts : Smart.AnimeSmartSearchOptions) (reads : nat)
  (all : list AnimeTorrent) (reads' : nat) (t : AnimeTorrent) :
  Smart.batch opts = false ->
  fetchAndParseSearchResults rt (effectiveQuery opts) reads = (Ok all, reads') ->
  In t all ->
  Smart.episodeNumber opts = episodeNumber t ->
  Smart.resolution opts = resolution t ->
  exists kept, smartSearch rt opts reads = (Ok kept, reads') /\ In t kept.
Proof.
  intros B Fetch I Ep Res.
  destruct (smartSearch_is_one_filter_aux rt opts reads all reads' B Fetch)
    as (Run & Kept).
  eexists. split; [exact Run|]. apply Kept. split; [exact I|].
  assert (NotBatch : isBatch t = false).
  { refine (proj1 (Forall_forall _ _)
              (fetched_Forall rt (fun t => isBatch t = false) _ _ _ _ _ Fetch)
              t I).
    intros release n ts n' Built.
    destruct (apiReleaseToAnimeTorrents_run rt release n) as (f & Run' & Fields).
    rewrite Run' in Built. inversion Built; subst ts.
    apply Forall_forall. intros u Iu. apply in_map_iff in Iu as (d & <- & _).
    apply Fields. }
  split.
  - unfold Derived.episodeWanted. rewrite Ep, NotBatch.
    destruct (gt (episodeNumber t) (Fin 0)) eqn:G; [|reflexivity].
    cbn [negb orb andb].
    replace (strict_eq (episodeNumber t) (episodeNumber t)) with true;
      [reflexivity|].
    symmetry. apply strict_eq_true_iff. split; [reflexivity|].
    exact (gt_zero_not_NaN _ G).
  - unfold Derived.resolutionWanted. rewrite Res.
    destruct (resolution t =? "")%string; [reflexivity|].
    destruct (parseInt (replace "p" "" (resolution t))) as [|z|s] eqn:P;
      cbn [isNaN orb]; [reflexivity| |].
    + apply strict_eq_true_iff. split; [reflexivity | discriminate].
    + apply strict_eq_true_iff. split; [reflexivity | discriminate].
Qed.

Lemma smartSearch_finds_an_entity_by_its_own_fields_witness :
  exists all kept reads' t,
    fetchAndParseSearchResults (Samples.runtimeWith Samples.found)
      (effectiveQuery (Samples.intent (Fin 3) (Fin 12) "720p")) 0%nat
    = (Ok all, reads')
    /\ In t all /\ episodeNumber t = Fin 3 /\ resolution t = "720p"%string
    /\ smartSearch (Samples.runtimeWith Samples.found)
         (Samples.intent (Fin 3) (Fin 12) "720p") 0%nat = (Ok kept, reads')
    /\ In t kept.
Proof.
  assert (Fetch : exists all reads',
             fetchAndParseSearchResults (Samples.runtimeWith Samples.found)
               (effectiveQuery (Samples.intent (Fin 3) (Fin 12) "720p")) 0%nat
             = (Ok all, reads')
             /\ exists t, In t all /\ episodeNumber t = Fin 3
                          /\ resolution t = "720p"%string).
  { eexists. eexists. split; [reflexivity|]. eexists.
    split; [left; reflexivity|]. split; reflexivity. }
  destruct Fetch as (all & reads' & Fetch & t & I & Ep & Res).
  destruct (smartSearch_finds_an_entity_by_its_own_fields
              (Samples.runtimeWith Samples.found)
              (Samples.intent (Fin 3) (Fin 12) "720p") 0%nat all reads' t
              eq_refl Fetch I (eq_sym Ep) (eq_sym Res))
    as (kept & Run & Found).
  exists all, kept, reads', t. repeat split; assumption.
Defined.

Lemma sentinel_matches_no_target (target offset : number) :
  gt target (Fin 0) = true ->
  gt (Fin 0) offset = false ->
  strict_eq (Fin (-1)) target = false
  /\ strict_eq (Fin (-1)) (add offset target) = false.
Proof.
  intros Positive NotNegative.
  destruct target as [|e|[|]]; try discriminate Positive;
    destruct offset as [|o|[|]]; try discriminate NotNegative;
    cbn [gt] in *; split; try reflexivity.
  - apply Z.eqb_neq. apply Z.ltb_lt in Positive. lia.
  - apply Z.eqb_neq. apply Z.ltb_lt in Positive. lia.
  - apply Z.ltb_lt in Positive. apply Z.ltb_ge in NotNegative. cbn [add].
    destruct (toDouble_of_nonneg (o + e)) as [(z & -> & P)| ->];
      [lia | | reflexivity].
    apply Z.eqb_neq. lia.
  - apply Z.eqb_neq. apply Z.ltb_lt in Positive. lia.
Qed.

(** X7. An episode-constrained search never returns the entities of a
    release whose episode label does not parse: with a target above 0 and
    an offset that is not negative, neither the target nor the absolute
    episode number can be the sentinel [-1] those entities carry. *)
Theorem unparsed_episode_labels_match_no_target (rt : Runtime)
  (release : SubsPleaseRelease) (reads : nat)
  (torrents : list AnimeTorrent) (reads' : nat)
  (opts : Smart.AnimeSmartSearchOptions) :
  parseInt (episode release) = NaN ->
  apiReleaseToAnimeTorrents rt release reads = (Ok torrents, reads') ->
  gt (Smart.episodeNumber opts) (Fin 0) = true ->
  gt (Fin 0) (absoluteSeasonOffset (Smart.media opts)) = false ->
  forall l t, In t torrents -> ~ In t (episodeStep opts l).
Proof.
  intros Unparsed Built Positive NotNegative l t I Kept.
  destruct (apiReleaseToAnimeTorrents_run rt release reads) as (f & Run & Fields).
  rewrite Run in Built. inversion Built; subst torrents.
  apply in_map_iff in I as (d & <- & _).
  destruct (Fields d) as (_ & _ & _ & _ & _ & _ & Ep).
  rewrite Unparsed in Ep. cbn [isNaN] in Ep.
  rewrite episodeStep_filter in Kept. apply filter_In in Kept as [_ Kept].
  unfold Derived.episodeWanted in Kept. rewrite Positive, Ep in Kept.
  destruct (sentinel_matches_no_target _ _ Positive NotNegative) as [T A].
  rewrite T, A, andb_false_r in Kept. discriminate Kept.
Qed.

Lemma unparsed_episode_labels_match_no_target_witness :
  let movie :=
    {| show := "X"; episode := "Movie";
       downloads := [ {| res := "1080"; magnet := "magnet:?xt=urn:btih:M" |} ];
       release_date := ""; page := "x" |} in
  exists torrents reads',
    apiReleaseToAnimeTorrents (Samples.runtimeWith Samples.found) movie 0%nat
    = (Ok torrents, reads')
    /\ List.length torrents = 1%nat
    /\ forall t, In t torrents ->
         ~ In t (episodeStep (Samples.intent (Fin 1) (Fin 0) "") torrents).
Proof.
  intros movie. eexists. eexists. split; [reflexivity|]. split; [reflexivity|].
  exact (unparsed_episode_labels_match_no_target
           (Samples.runtimeWith Samples.found) movie 0%nat _ _
           (Samples.intent (Fin 1) (Fin 0) "")
           eq_refl eq_refl eq_refl eq_refl _).
Defined.

Lemma replace_absent (body : string) :
  Spec.occurs "p" body = false -> replace "p" "" body = body.
Proof.
  induction body as [|c body IH]; intros NoP; [reflexivity|].
  cbn [Spec.occurs] in NoP. apply orb_false_iff in NoP as [Cp NoP].
  cbn [replace String.prefix].
  destruct (Ascii.ascii_dec "p" c) as [E|_].
  - subst c. discriminate Cp.
  - now rewrite (IH NoP).
Qed.

(** X8. The unit on the target resolution is optional: a target written
    with a trailing [p] and the same target written without it make the
    resolution step keep the same entities (["1080p"] and ["1080"], and
    likewise ["p"] and the empty target, which both constrain nothing). *)
Theorem target_unit_is_optional (bare unit : Smart.AnimeSmartSearchOptions)
  (l : list AnimeTorrent) :
  Spec.occurs "p" (Smart.resolution bare) = false ->
  Smart.resolution unit = (Smart.resolution bare ++ "p")%string ->
  resolutionStep unit l = resolutionStep bare l.
Proof.
  intros NoP Unit. rewrite !resolutionStep_filter. apply filter_ext. intros t.
  unfold Derived.resolutionWanted. rewrite Unit.
  rewrite (proj1 (replace_first_p_strips_unit _ NoP)), (replace_absent _ NoP).
  destruct (Smart.resolution bare) as [|c body]; reflexivity.
Qed.

Lemma target_unit_is_optional_witness :
  let l := [Samples.torrentWith "1080p" (Fin 1);
            Samples.torrentWith "720p" (Fin 1)] in
  resolutionStep (Samples.intent (Fin 0) (Fin 0) "1080p") l
  = resolutionStep (Samples.intent (Fin 0) (Fin 0) "1080") l
  /\ resolutionStep (Samples.intent (Fin 0) (Fin 0) "1080") l
     = [Samples.torrentWith "1080p" (Fin 1)].
Proof.
  intros l. split; [|reflexivity].
  exact (target_unit_is_optional
           (Samples.intent (Fin 0) (Fin 0) "1080")
           (Samples.intent (Fin 0) (Fin 0) "1080p") l eq_refl eq_refl).
Defined.

(** ** What a fetch returns *)

Lemma nonBatch_cons (key : string) (release : SubsPleaseRelease)
  (entries : list (string * SubsPleaseRelease)) :
  Derived.nonBatch ((key, release) :: entries)
  = if negb (episode release =? "Batch")%string
    then release :: Derived.nonBatch entries
    else Derived.nonBatch entries.
Proof. reflexivity. Qed.

Lemma stampOf_reads (rt : Runtime) (release : SubsPleaseRelease) (reads : nat) :
  snd (Spec.stampOf rt release reads)
  = (reads + if Derived.dateUnparsed rt release then 1 else 0)%nat.
Proof.
  unfold Spec.stampOf, Derived.dateUnparsed.
  destruct (newDate rt (release_date release)); cbn [snd]; lia.
Qed.

(** The builder's loop only appends to its list: it returns the list it
    was given followed by the entities of the releases that are no
    batches, in the order of the payload, and reads the clock once for
    each of these whose date does not parse. *)
Lemma collectReleases_run (rt : Runtime)
  (entries : list (string * SubsPleaseRelease)) :
  forall torrents reads,
  exists more,
    collectReleases rt entries torrents reads
    = (Ok (torrents ++ more),
       (reads + Derived.unparsedDates rt (Derived.nonBatch entries))%nat)
    /\ map magnetLink more
       = flat_map (fun release => map magnet (downloads release))
           (Derived.nonBatch entries)
    /\ map resolution more
       = flat_map (fun release =>
                     map (fun d => (res d ++ "p")%string) (downloads release))
           (Derived.nonBatch entries).
Proof.
  induction entries as [|[key release] entries IH]; intros torrents reads.
  - exists []. cbn. rewrite app_nil_r, Nat.add_0_r. repeat split.
  - cbn [collectReleases]. rewrite nonBatch_cons.
    destruct (negb (episode release =? "Batch")%string).
    + destruct (apiReleaseToAnimeTorrents_run rt release reads)
        as (f & Run & Fields).
      unfold bind. rewrite Run.
      destruct (IH (torrents ++ map f (downloads release))
                  (snd (Spec.stampOf rt release reads)))
        as (more & Rest & Links & Labels).
      exists (map f (downloads release) ++ more).
      rewrite Rest, <- app_assoc, stampOf_reads. split; [|split].
      * f_equal. unfold Derived.unparsedDates. cbn [filter].
        destruct (Derived.dateUnparsed rt release); cbn [List.length]; lia.
      * rewrite map_app, Links, map_map. cbn [flat_map]. f_equal.
        apply map_ext. intros d. apply Fields.
      * rewrite map_app, Labels, map_map. cbn [flat_map]. f_equal.
        apply map_ext. intros d. apply Fields.
    + apply IH.
Qed.



(** X10. The normalizer reads the clock at most once, and only for a
    release whose date does not parse; all the entities of one release
    share the timestamp, the episode number and the page link.  For a
    release whose date parses, the entities do not depend on the clock or
    on the transport at all. *)
Theorem clock_is_read_only_for_an_unparsed_date (rt : Runtime)
  (release : SubsPleaseRelease) (reads : nat) :
  exists torrents,
    apiReleaseToAnimeTorrents rt release reads
    = (Ok torrents,
       if Derived.dateUnparsed rt release then S reads else reads)
    /\ (forall t u, In t torrents -> In u torrents ->
          date t = date u /\ episodeNumber t = episodeNumber u
          /\ link t = link u)
    /\ (Derived.dateUnparsed rt release = true ->
        forall t, In t torrents -> date t = toISOString (Date_now rt reads))
    /\ (Derived.dateUnparsed rt release = false ->
        forall rt' reads',
          Date_parse rt' (release_date release)
          = Date_parse rt (release_date release) ->
          apiReleaseToAnimeTorrents rt' release reads' = (Ok torrents, reads')).
Proof.
  destruct (apiReleaseToAnimeTorrents_fields rt release reads) as (f & Run & Fields).
  exists (map f (downloads release)). split; [|split; [|split]].
  - rewrite Run, stampOf_reads. f_equal.
    destruct (Derived.dateUnparsed rt release); lia.
  - intros t u It Iu.
    apply in_map_iff in It as (d & <- & _). apply in_map_iff in Iu as (d' & <- & _).
    destruct (Fields d) as (_ & D & _ & _ & _ & _ & _ & L & _ & _ & _ & _ & _ & E & _).
    destruct (Fields d') as (_ & D' & _ & _ & _ & _ & _ & L' & _ & _ & _ & _ & _ & E' & _).
    rewrite D, D', L, L', E, E'. repeat split.
  - intros Unparsed t It. apply in_map_iff in It as (d & <- & _).
    destruct (Fields d) as (_ & D & _). rewrite D.
    unfold Spec.stampOf. unfold Derived.dateUnparsed in Unparsed.
    destruct (newDate rt (release_date release)); [discriminate Unparsed|].
    reflexivity.
  - intros Parsed rt' reads' Same.
    unfold Derived.dateUnparsed in Parsed.
    revert Run. unfold apiReleaseToAnimeTorrents, Spec.stampOf, newDate in *.
    rewrite Same.
    destruct (TimeClip (Date_parse rt (release_date release))) as [tv|];
      [|discriminate Parsed].
    unfold bind, ret. cbn [snd]. intros Run.
    exact (f_equal (fun run => (fst run, reads')) Run).
Qed.

Lemma clock_is_read_only_for_an_unparsed_date_witness :
  (exists torrents,
      apiReleaseToAnimeTorrents (Samples.runtimeWith Samples.found)
        Samples.release3 5%nat = (Ok torrents, 5%nat)
      /\ apiReleaseToAnimeTorrents (Samples.runtimeWith Samples.notFound)
           Samples.release3 9%nat = (Ok torrents, 9%nat))
  /\ (exists torrents,
         apiReleaseToAnimeTorrents (Samples.runtimeWith Samples.found)
           Samples.releaseMinus5 5%nat = (Ok torrents, 6%nat)).
Proof.
  split.
  - destruct (clock_is_read_only_for_an_unparsed_date
                (Samples.runtimeWith Samples.found) Samples.release3 5%nat)
      as (torrents & Run & _ & _ & Parsed).
    exists torrents. split; [exact Run|].
    exact (Parsed eq_refl (Samples.runtimeWith Samples.notFound) 9%nat eq_refl).
  - destruct (clock_is_read_only_for_an_unparsed_date
                (Samples.runtimeWith Samples.found) Samples.releaseMinus5 5%nat)
      as (torrents & Run & _).
    exists torrents. exact Run.
Defined.

Lemma operations_follow_the_fetch (rt : Runtime) (query : string) (reads : nat)
  (outcome : result (list AnimeTorrent) * nat) :
  fetchAndParseSearchResults rt query reads = outcome ->
  (outcome = (Ok [], reads) \/ exists e, outcome = (Throw e, reads)) ->
  (query = ""%string -> getLatest rt reads = outcome)
  /\ (forall opts, Search.query opts = query -> search rt opts reads = outcome)
  /\ (forall opts,
        Smart.batch opts = false -> effectiveQuery opts = query ->
        smartSearch rt opts reads = outcome).
Proof.
  intros Fetch Shape. split; [|split].
  - intros ->. exact Fetch.
  - intros opts <-. exact Fetch.
  - intros opts B <-. rewrite smartSearch_unfold by exact B.
    unfold bind. rewrite Fetch.
    destruct Shape as [->|[e ->]]; [|reflexivity].
    unfold ret. now rewrite resolutionStep_filter, episodeStep_filter.
Qed.

(** X11. A success response whose body is not an object ([null], a number,
    a string), or is an object with no entry that is not a batch (the empty
    object, the empty array), gives the empty list, without an error and
    without a reading of the clock, from [getLatest], [search] and
    [smartSearch] alike. *)
Theorem body_without_releases_gives_the_empty_list (rt : Runtime)
  (query : string) (response : Response) (reads : nat) :
  fetch rt (searchUrl query) = Ok response ->
  ok response = true ->
  (json response = Ok JsonOther
   \/ exists entries, json response = Ok (JsonObject entries)
                      /\ Derived.nonBatch entries = []) ->
  fetchAndParseSearchResults rt query reads = (Ok [], reads)
  /\ (query = ""%string -> getLatest rt reads = (Ok [], reads))
  /\ (forall opts, Search.query opts = query ->
                   search rt opts reads = (Ok [], reads))
  /\ (forall opts,
        Smart.batch opts = false -> effectiveQuery opts = query ->
        smartSearch rt opts reads = (Ok [], reads)).
Proof.
  intros F O Body.
  assert (Fetch : fetchAndParseSearchResults rt query reads = (Ok [], reads)).
  { destruct Body as [J|(entries & J & Empty)].
    - unfold fetchAndParseSearchResults, bind, await. rewrite F, O. cbn.
      now rewrite J.
    - rewrite (fetchAndParseSearchResults_ok rt query response entries reads F O J).
      destruct (collectReleases_run rt entries [] reads) as (more & Run & Links & _).
      rewrite Run, Empty in *. cbn in Links.
      apply map_eq_nil in Links. subst more. cbn. now rewrite Nat.add_0_r. }
  split; [exact Fetch|].
  apply (operations_follow_the_fetch rt query reads _ Fetch). now left.
Qed.

Lemma body_without_releases_gives_the_empty_list_witness :
  let noResults :=
    {| ok := true; status := Fin 200; json := Ok (JsonObject []) |} in
  let onlyBatch :=
    {| ok := true; status := Fin 200;
       json := Ok (JsonObject [("9", Samples.releaseBatch)]) |} in
  getLatest (Samples.runtimeWith noResults) 4%nat = (Ok [], 4%nat)
  /\ smartSearch (Samples.runtimeWith onlyBatch)
       (Samples.intent (Fin 1) (Fin 0) "1080p") 4%nat = (Ok [], 4%nat).
Proof.
  intros noResults onlyBatch. split.
  - destruct (body_without_releases_gives_the_empty_list
                (Samples.runtimeWith noResults) "" noResults 4%nat
                eq_refl eq_refl
                (or_intror (ex_intro _ [] (conj eq_refl eq_refl))))
      as (_ & Latest & _).
    exact (Latest eq_refl).
  - destruct (body_without_releases_gives_the_empty_list
                (Samples.runtimeWith onlyBatch) "Sousou no Frieren" onlyBatch
                4%nat eq_refl eq_refl
                (or_intror (ex_intro _ [("9", Samples.releaseBatch)]
                              (conj eq_refl eq_refl))))
      as (_ & _ & _ & Smart).
    exact (Smart (Samples.intent (Fin 1) (Fin 0) "1080p") eq_refl eq_refl).
Defined.

(** X12. What the transport throws reaches the caller unchanged: when the
    request itself is rejected, or when the status is a success but the
    body cannot be decoded, [getLatest], [search] and [smartSearch] throw
    that very exception, return no list and do not read the clock. *)
Theorem transport_failures_propagate (rt : Runtime) (query : string)
  (e : exn) (reads : nat) :
  (fetch rt (searchUrl query) = Throw e
   \/ exists response, fetch rt (searchUrl query) = Ok response
                       /\ ok response = true /\ json response = Throw e) ->
  fetchAndParseSearchResults rt query reads = (Throw e, reads)
  /\ (query = ""%string -> getLatest rt reads = (Throw e, reads))
  /\ (forall opts, Search.query opts = query ->
                   search rt opts reads = (Throw e, reads))
  /\ (forall opts,
        Smart.batch opts = false -> effectiveQuery opts = query ->
        smartSearch rt opts reads = (Throw e, reads)).
Proof.
  intros Failure.
  assert (Fetch : fetchAndParseSearchResults rt query reads = (Throw e, reads)).
  { unfold fetchAndParseSearchResults, bind, await.
    destruct Failure as [F|(response & F & O & J)]; rewrite F.
    - reflexivity.
    - rewrite O. cbn. now rewrite J. }
  split; [exact Fetch|].
  apply (operations_follow_the_fetch rt query reads _ Fetch). right. now exists e.
Qed.

Lemma transport_failures_propagate_witness :
  let offline :=
    {| fetch := fun _ => Throw (Rejection "network unreachable");
       Date_parse := fun _ => None;
       Date_now := fun _ => 0 |} in
  let garbled :=
    {| ok := true; status := Fin 200;
       json := Throw (Rejection "unexpected token") |} in
  getLatest offline 0%nat = (Throw (Rejection "network unreachable"), 0%nat)
  /\ search (Samples.runtimeWith garbled) {| Search.query := "x" |} 0%nat
     = (Throw (Rejection "unexpected token"), 0%nat).
Proof.
  intros offline garbled. split.
  - destruct (transport_failures_propagate offline ""
                (Rejection "network unreachable") 0%nat (or_introl eq_refl))
      as (_ & Latest & _).
    exact (Latest eq_refl).
  - destruct (transport_failures_propagate (Samples.runtimeWith garbled) "x"
                (Rejection "unexpected token") 0%nat
                (or_intror (ex_intro _ garbled
                              (conj eq_refl (conj eq_refl eq_refl)))))
      as (_ & _ & Plain & _).
    exact (Plain {| Search.query := "x" |} eq_refl).
Defined.

(** ** The request *)

Lemma byte_range (c : ascii) : 0 <= byte c < 256.
Proof.
  unfold byte. pose proof (nat_ascii_bounded c). lia.
Qed.

Lemma byte_injective (c c' : ascii) : byte c = byte c' -> c = c'.
Proof.
  unfold byte. intros E. apply Nat2Z.inj in E.
  rewrite <- (ascii_nat_embedding c), <- (ascii_nat_embedding c'). now rewrite E.
Qed.

Lemma hexDigit_spec (n : Z) :
  0 <= n < 16 ->
  isUnreserved (hexDigit n) = true
  /\ Derived.isUpperHex (hexDigit n) = true
  /\ (if isDigit (hexDigit n) then byte (hexDigit n) - 48
      else byte (hexDigit n) - 55) = n.
Proof.
  intros R.
  assert (Count : n = Z.of_nat (Z.to_nat n)) by lia.
  assert (Below : (Z.to_nat n < 16)%nat) by lia.
  revert Count Below. generalize (Z.to_nat n) as k. intros k Count Below.
  subst n. clear R.
  do 16 (destruct k as [|k]; [vm_compute; repeat split|]).
  lia.
Qed.

Lemma hexDigit_injective (n n' : Z) :
  0 <= n < 16 -> 0 <= n' < 16 -> hexDigit n = hexDigit n' -> n = n'.
Proof.
  intros R R' E.
  destruct (hexDigit_spec n R) as (_ & _ & V).
  destruct (hexDigit_spec n' R') as (_ & _ & V').
  rewrite <- V, <- V'. now rewrite E.
Qed.

Lemma allOf_append (p : ascii -> bool) (a b : string) :
  allOf p (a ++ b) = allOf p a && allOf p b.
Proof.
  induction a as [|c a IH]; cbn [String.append allOf]; [reflexivity|].
  now rewrite IH, andb_assoc.
Qed.

Lemma encodeURIComponent_safe (s : string) :
  allOf Derived.urlSafe (encodeURIComponent s) = true.
Proof.
  induction s as [|c s IH]; [reflexivity|].
  cbn [encodeURIComponent]. rewrite allOf_append, IH, andb_true_r.
  destruct (isUnreserved c) eqn:U; cbn [allOf]; unfold Derived.urlSafe.
  - now rewrite U.
  - pose proof (byte_range c) as R.
    destruct (hexDigit_spec (byte c / 16)) as (H1 & _);
      [Z.div_mod_to_equations; lia|].
    destruct (hexDigit_spec (byte c mod 16)) as (H2 & _);
      [Z.div_mod_to_equations; lia|].
    now rewrite H1, H2.
Qed.

Lemma encodeURIComponent_injective (s s' : string) :
  encodeURIComponent s = encodeURIComponent s' -> s = s'.
Proof.
  revert s'. induction s as [|c s IH]; intros [|c' s'] E.
  - reflexivity.
  - cbn [encodeURIComponent] in E. destruct (isUnreserved c'); discriminate E.
  - cbn [encodeURIComponent] in E. destruct (isUnreserved c); discriminate E.
  - cbn [encodeURIComponent] in E.
    destruct (isUnreserved c) eqn:U, (isUnreserved c') eqn:U';
      cbn [String.append] in E.
    + injection E as Head Tail. subst c'. f_equal. now apply IH.
    + injection E as Head _. subst c. discriminate U.
    + injection E as Head _. subst c'. discriminate U'.
    + pose proof (byte_range c) as R. pose proof (byte_range c') as R'.
      injection E as High Low Rest.
      apply hexDigit_injective in High; [|Z.div_mod_to_equations; lia ..].
      apply hexDigit_injective in Low; [|Z.div_mod_to_equations; lia ..].
      f_equal; [|now apply IH].
      apply byte_injective. Z.div_mod_to_equations. lia.
Qed.

(** X13. The URL of a request is the fixed endpoint followed by the
    encoded query, which is made of unreserved characters and [%XX]
    escapes only: no query can add a parameter, a fragment or a path to the
    request.  Different queries give different URLs. *)
Theorem searchUrl_is_safe_and_injective :
  (forall query,
      searchUrl query
      = ("https://subsplease.org/api/?f=search&tz=UTC&s="
         ++ encodeURIComponent query)%string
      /\ allOf Derived.urlSafe (encodeURIComponent query) = true)
  /\ (forall c, In c ["&"; "="; "#"; "?"; "/"; " "; "+"]%char ->
                Derived.urlSafe c = false)
  /\ (forall query query', searchUrl query = searchUrl query' -> query = query').
Proof.
  split; [|split].
  - intros query. split; [reflexivity | apply encodeURIComponent_safe].
  - intros c I. cbn [In] in I.
    repeat destruct I as [<-|I]; try reflexivity. contradiction.
  - intros query query' E. unfold searchUrl in E.
    apply append_inv_head in E. apply append_inv_head in E.
    now apply encodeURIComponent_injective.
Qed.

Lemma searchUrl_is_safe_and_injective_witness :
  searchUrl "Frieren S2 & more"
  = "https://subsplease.org/api/?f=search&tz=UTC&s=Frieren%20S2%20%26%20more"%string
  /\ searchUrl "" = "https://subsplease.org/api/?f=search&tz=UTC&s="%string
  /\ searchUrl "a b" <> searchUrl "a+b".
Proof.
  destruct searchUrl_is_safe_and_injective as (Shape & _ & Injective).
  split; [exact (proj1 (Shape "Frieren S2 & more"%string))|].
  split; [exact (proj1 (Shape ""%string))|].
  intros Same. apply Injective in Same. discriminate Same.
Defined.

(** ** The title and the episode number *)

Lemma append_length (a b : string) :
  String.length (a ++ b) = (String.length a + String.length b)%nat.
Proof. induction a as [|x a IH]; simpl; congruence. Qed.

Lemma padStart_length (s : string) (width : nat) (c : ascii) :
  String.length (padStart s width c) = Nat.max width (String.length s).
Proof.
  unfold padStart. rewrite append_length.
  assert (R : forall n, String.length (repeatChar c n) = n)
    by (induction n as [|n IH]; simpl; congruence).
  rewrite R. lia.
Qed.

Lemma toDouble_not_NaN (v : Z) : toDouble v <> NaN.
Proof.
  unfold toDouble. destruct (Z.abs v <? 2 ^ 53); [discriminate|].
  cbv zeta.
  match goal with |- (if ?b then _ else _) <> _ => destruct b end; discriminate.
Qed.

(** [parseInt] reads the leading run of digits and ignores what follows
    it. *)
Lemma parseInt_digit_run (digits suffix : string) :
  digits <> ""%string -> allOf isDigit digits = true ->
  Spec.stops isDigit suffix ->
  parseInt (digits ++ suffix) = toDouble (decimalValue digits).
Proof.
  destruct digits as [|c s]; [contradiction|]. intros _ All Stops.
  pose proof (takeWhile_run isDigit _ _ All Stops) as Run.
  cbn [allOf] in All. apply andb_true_iff in All as [D _].
  destruct (digit_is_no_sign c D) as [Minus Plus].
  unfold parseInt. cbn [String.append] in *.
  rewrite (trimStart_digit c _ D), !prefix_char, Minus, Plus.
  cbn [orb]. rewrite Run. cbn [String.eqb]. now rewrite Z.mul_1_l.
Qed.

(** X14. The title of an entity is the fixed template around the show, the
    episode, the entity's resolution and its info-hash, the episode being
    [String(parseInt(label))] padded to at least two characters.  The
    title shows the parse itself, not the sentinel: for a label that does
    not parse, the episode number field is [-1] while the title reads
    [NaN]. *)
Theorem title_shows_the_parse_not_the_sentinel (rt : Runtime)
  (release : SubsPleaseRelease) (reads : nat) :
  exists torrents reads',
    apiReleaseToAnimeTorrents rt release reads = (Ok torrents, reads')
    /\ forall t, In t torrents ->
         name t
         = ("[SubsPlease] " ++ show release ++ " - "
            ++ padStart (toString (parseInt (episode release))) 2 "0"
            ++ " (" ++ resolution t ++ ") [" ++ infoHash t ++ "].mkv")%string
         /\ (2 <= String.length
                    (padStart (toString (parseInt (episode release))) 2 "0"))%nat
         /\ (parseInt (episode release) = NaN ->
             episodeNumber t = Fin (-1)
             /\ name t
                = ("[SubsPlease] " ++ show release ++ " - NaN ("
                   ++ resolution t ++ ") [" ++ infoHash t ++ "].mkv")%string).
Proof.
  destruct (apiReleaseToAnimeTorrents_fields rt release reads) as (f & Run & Fields).
  exists (map f (downloads release)), (snd (Spec.stampOf rt release reads)).
  split; [exact Run|].
  intros t I. apply in_map_iff in I as (d & <- & _).
  destruct (Fields d)
    as (Name & _ & _ & _ & _ & _ & _ & _ & _ & _ & Hash & Label & _ & Ep & _).
  rewrite Name, Hash, Label, Ep. split; [reflexivity|]. split.
  - rewrite padStart_length. apply Nat.le_max_l.
  - intros Unparsed. rewrite Unparsed. split; reflexivity.
Qed.

Lemma title_shows_the_parse_not_the_sentinel_witness :
  exists torrents reads',
    apiReleaseToAnimeTorrents (Samples.runtimeWith Samples.found)
      Samples.release3 0%nat = (Ok torrents, reads')
    /\ map name torrents
       = ["[SubsPlease] X - 03 (720p) [HASH1].mkv";
          "[SubsPlease] X - 03 (1080p) [HASH2].mkv"]%string.
Proof.
  destruct (title_shows_the_parse_not_the_sentinel
              (Samples.runtimeWith Samples.found) Samples.release3 0%nat)
    as (torrents & reads' & Run & _).
  exists torrents, reads'. split; [exact Run|].
  vm_compute in Run. injection Run as <- _. reflexivity.
Defined.

(** X15. Only the leading digits of an episode label count: for a label
    made of a run of digits followed by anything that does not start with a
    digit (a version suffix such as [v2], a range, a decimal part), every
    entity's episode number is the Number the digits write, that very
    integer below 2^53, leading zeros notwithstanding. *)
Theorem episode_number_ignores_a_label_suffix (rt : Runtime)
  (release : SubsPleaseRelease) (reads : nat) (digits suffix : string) :
  episode release = (digits ++ suffix)%string ->
  digits <> ""%string ->
  allOf isDigit digits = true ->
  Spec.stops isDigit suffix ->
  exists torrents reads',
    apiReleaseToAnimeTorrents rt release reads = (Ok torrents, reads')
    /\ forall t, In t torrents ->
         episodeNumber t = toDouble (decimalValue digits)
         /\ (decimalValue digits < 2 ^ 53 ->
             episodeNumber t = Fin (decimalValue digits)).
Proof.
  intros Label NonEmpty All Stops.
  destruct (apiReleaseToAnimeTorrents_run rt release reads) as (f & Run & Fields).
  exists (map f (downloads release)), (snd (Spec.stampOf rt release reads)).
  split; [exact Run|].
  intros t I. apply in_map_iff in I as (d & <- & _).
  destruct (Fields d) as (_ & _ & _ & _ & _ & _ & Ep).
  rewrite Ep, Label, (parseInt_digit_run digits suffix NonEmpty All Stops).
  assert (Number : isNaN (toDouble (decimalValue digits)) = false).
  { pose proof (toDouble_not_NaN (decimalValue digits)) as N.
    now destruct (toDouble (decimalValue digits)). }
  rewrite Number. split; [reflexivity|].
  intros Small. apply toDouble_exact.
  pose proof (decimalValueFrom_nonneg digits 0 All (Z.le_refl 0)) as P.
  fold (decimalValue digits) in P. lia.
Qed.

Lemma episode_number_ignores_a_label_suffix_witness :
  let revised :=
    {| show := "X"; episode := "07v2";
       downloads := [ {| res := "1080"; magnet := "magnet:?xt=urn:btih:R" |} ];
       release_date := "2024-01-01T00:00:00Z"; page := "x" |} in
  exists torrents reads',
    apiReleaseToAnimeTorrents (Samples.runtimeWith Samples.found) revised 0%nat
    = (Ok torrents, reads')
    /\ forall t, In t torrents -> episodeNumber t = Fin 7.
Proof.
  intros revised.
  assert (Stops : Spec.stops isDigit "v2").
  { intros c rest E. injection E as <- _. reflexivity. }
  destruct (episode_number_ignores_a_label_suffix
              (Samples.runtimeWith Samples.found) revised 0%nat "07" "v2"
              eq_refl ltac:(discriminate) eq_refl Stops)
    as (torrents & reads' & Run & Number).
  exists torrents, reads'. split; [exact Run|].
  intros t I. exact (proj1 (Number t I)).
Defined.

(** ** One request per call *)

Section SameSurroundings.

Variables rt rt' : Runtime.
Hypothesis same_dates : forall s, Date_parse rt s = Date_parse rt' s.
Hypothesis same_clock : forall reads, Date_now rt reads = Date_now rt' reads.

Lemma apiReleaseToAnimeTorrents_same (release : SubsPleaseRelease) (reads : nat) :
  apiReleaseToAnimeTorrents rt release reads
  = apiReleaseToAnimeTorrents rt' release reads.
Proof.
  unfold apiReleaseToAnimeTorrents, newDate, newDateNow, bind, ret.
  rewrite same_dates.
  destruct (TimeClip (Date_parse rt' (release_date release))); [reflexivity|].
  now rewrite same_clock.
Qed.

Lemma collectReleases_same (entries : list (string * SubsPleaseRelease)) :
  forall torrents reads,
    collectReleases rt entries torrents reads
    = collectReleases rt' entries torrents reads.
Proof.
  induction entries as [|[key release] entries IH]; intros torrents reads.
  - reflexivity.
  - cbn [collectReleases].
    destruct (negb (episode release =? "Batch")%string); [|apply IH].
    unfold bind. rewrite apiReleaseToAnimeTorrents_same.
    destruct (apiReleaseToAnimeTorrents rt' release reads) as [[pushed|e] reads'];
      [apply IH | reflexivity].
Qed.

Lemma fetchAndParseSearchResults_same (query : string) (reads : nat) :
  fetch rt (searchUrl query) = fetch rt' (searchUrl query) ->
  fetchAndParseSearchResults rt query reads
  = fetchAndParseSearchResults rt' query reads.
Proof.
  intros F. unfold fetchAndParseSearchResults, bind, await. rewrite F.
  destruct (fetch rt' (searchUrl query)) as [response|e]; [|reflexivity].
  destruct (negb (ok response)); [reflexivity|].
  destruct (json response) as [[entries|]|e]; try reflexivity.
  apply collectReleases_same.
Qed.

End SameSurroundings.

(** X16. A call consults the transport at one URL only: two runtimes with
    the same date parser and clock that answer that URL alike give the
    same outcome, whatever they answer elsewhere.  The URL is that of the
    empty query for [getLatest], of the caller's query for [search], and
    for [smartSearch] of the first non-empty string among the query, the
    romaji title and the english title (none at all for a batch intent). *)
Theorem a_call_makes_one_request (rt rt' : Runtime) :
  (forall s, Date_parse rt s = Date_parse rt' s) ->
  (forall reads, Date_now rt reads = Date_now rt' reads) ->
  (fetch rt (searchUrl "") = fetch rt' (searchUrl "") ->
   forall reads, getLatest rt reads = getLatest rt' reads)
  /\ (forall opts,
        fetch rt (searchUrl (Search.query opts))
        = fetch rt' (searchUrl (Search.query opts)) ->
        forall reads, search rt opts reads = search rt' opts reads)
  /\ (forall opts chosen,
        (Smart.query opts <> ""%string /\ chosen = Smart.query opts
         \/ Smart.query opts = ""%string
            /\ romajiTitle (Smart.media opts) <> ""%string
            /\ chosen = romajiTitle (Smart.media opts)
         \/ Smart.query opts = ""%string
            /\ romajiTitle (Smart.media opts) = ""%string
            /\ chosen = englishTitle (Smart.media opts)) ->
        (Smart.batch opts = true
         \/ fetch rt (searchUrl chosen) = fetch rt' (searchUrl chosen)) ->
        forall reads, smartSearch rt opts reads = smartSearch rt' opts reads).
Proof.
  intros Dates Clock. split; [|split].
  - intros F reads. now apply fetchAndParseSearchResults_same.
  - intros opts F reads. now apply fetchAndParseSearchResults_same.
  - intros opts chosen Chosen Request reads.
    assert (Effective : effectiveQuery opts = chosen).
    { unfold effectiveQuery, orElse.
      destruct Chosen as [[Q ->]|[(Q & R & ->)|(Q & R & ->)]].
      - destruct (String.eqb_spec (Smart.query opts) ""); [contradiction|reflexivity].
      - rewrite Q. cbn.
        destruct (String.eqb_spec (romajiTitle (Smart.media opts)) "");
          [contradiction|reflexivity].
      - rewrite Q, R. cbn.
        now destruct (String.eqb_spec (englishTitle (Smart.media opts)) ""). }
    unfold smartSearch. destruct (Smart.batch opts) eqn:B; [reflexivity|].
    destruct Request as [Batch|F]; [discriminate Batch|].
    unfold bind. rewrite Effective.
    now rewrite (fetchAndParseSearchResults_same rt rt' Dates Clock chosen reads F).
Qed.

Lemma a_call_makes_one_request_witness :
  let elsewhere :=
    {| fetch := fun url =>
         if (url =? searchUrl "Sousou no Frieren")%string
         then Ok Samples.found
         else Throw (Rejection "not asked");
       Date_parse := Date_parse (Samples.runtimeWith Samples.found);
       Date_now := Date_now (Samples.runtimeWith Samples.found) |} in
  smartSearch (Samples.runtimeWith Samples.found)
    (Samples.intent (Fin 3) (Fin 0) "720p") 0%nat
  = smartSearch elsewhere (Samples.intent (Fin 3) (Fin 0) "720p") 0%nat.
Proof.
  intros elsewhere.
  destruct (a_call_makes_one_request (Samples.runtimeWith Samples.found)
              elsewhere (fun _ => eq_refl) (fun _ => eq_refl))
    as (_ & _ & Smart).
  apply (Smart (Samples.intent (Fin 3) (Fin 0) "720p") "Sousou no Frieren"%string).
  - right. left. repeat split. discriminate.
  - right. reflexivity.
Defined.

(** ** The label the normalizer writes and the filter reads *)

(** X17. The [p] the normalizer appends to a quality is the [p] the
    resolution filter removes: for a download whose quality holds no [p],
    the entity's label parses to what the quality itself parses to, so a
    search for a target that parses keeps the entity exactly when the
    feed's quality and the target denote the same Number. *)
Theorem filter_reads_the_quality_the_feed_gave (rt : Runtime)
  (release : SubsPleaseRelease) (reads : nat) :
  exists torrents reads',
    apiReleaseToAnimeTorrents rt release reads = (Ok torrents, reads')
    /\ forall i d,
         nth_error (downloads release) i = Some d ->
         Spec.occurs "p" (res d) = false ->
         exists t,
           nth_error torrents i = Some t
           /\ parseInt (replace "p" "" (resolution t)) = parseInt (res d)
           /\ forall opts,
                Smart.resolution opts <> ""%string ->
                parseInt (replace "p" "" (Smart.resolution opts)) <> NaN ->
                (In t (resolutionStep opts torrents)
                 <-> parseInt (res d)
                     = parseInt (replace "p" "" (Smart.resolution opts))).
Proof.
  destruct (apiReleaseToAnimeTorrents_run rt release reads) as (f & Run & Fields).
  exists (map f (downloads release)), (snd (Spec.stampOf rt release reads)).
  split; [exact Run|].
  intros i d Hi NoP. exists (f d).
  assert (Label : parseInt (replace "p" "" (resolution (f d))) = parseInt (res d)).
  { destruct (Fields d) as (-> & _).
    now rewrite (proj1 (replace_first_p_strips_unit _ NoP)). }
  split; [rewrite nth_error_map, Hi; reflexivity|]. split; [exact Label|].
  intros opts NonEmpty Parsed.
  rewrite (resolutionStep_parsable opts _ NonEmpty Parsed), filter_In.
  rewrite strict_eq_true_iff, Label. split.
  - intros (_ & E & _). exact E.
  - intros E. split; [|split; [exact E | congruence]].
    apply in_map. exact (nth_error_In _ _ Hi).
Qed.

Lemma filter_reads_the_quality_the_feed_gave_witness :
  exists torrents reads' t,
    apiReleaseToAnimeTorrents (Samples.runtimeWith Samples.found)
      Samples.release3 0%nat = (Ok torrents, reads')
    /\ nth_error torrents 1 = Some t
    /\ In t (resolutionStep (Samples.intent (Fin 0) (Fin 0) "1080p") torrents)
    /\ ~ In t (resolutionStep (Samples.intent (Fin 0) (Fin 0) "720") torrents).
Proof.
  destruct (filter_reads_the_quality_the_feed_gave
              (Samples.runtimeWith Samples.found) Samples.release3 0%nat)
    as (torrents & reads' & Run & Quality).
  destruct (Quality 1%nat {| res := "1080"; magnet := "magnet:?xt=urn:btih:hash2" |}
              eq_refl eq_refl) as (t & Nth & _ & Kept).
  exists torrents, reads', t. split; [exact Run|]. split; [exact Nth|]. split.
  - apply (Kept (Samples.intent (Fin 0) (Fin 0) "1080p")).
    + discriminate.
    + discriminate.
    + reflexivity.
  - intros K.
    apply (Kept (Samples.intent (Fin 0) (Fin 0) "720")) in K;
      [|discriminate|discriminate].
    vm_compute in K. discriminate K.
Defined.
